(** * SharePoint ingestion utilities: chunker, document ids, ACL extraction

    A shallow embedding of [notebooks/utils.py]: the text chunker
    ([TextChunker]), the document-id generator ([create_document_id]) and
    the ACL extractor ([extract_acl_from_permissions]), followed by the
    properties the specification states about them.

    Python values are embedded as follows.
    - [str] is a list of Unicode code points ([N]); [len] counts code
      points, as Python does.
    - [int] is [Z] (Python integers are unbounded).
    - Code that can raise returns [result], a sum with the exception on the
      left.
    - JSON-like dynamic data (the Graph API permissions) is the inductive
      type [value]. *)

From Stdlib Require Import List ZArith NArith Bool Lia Ascii String.
Import ListNotations.

Set Warnings "-register-all".

(** ** Python strings *)

Module Py.

Definition str := list N.

(** An ASCII literal as a Python string. *)
Definition u (s : string) : str := map N_of_ascii (list_ascii_of_string s).

Definition len (s : str) : Z := Z.of_nat (List.length s).

Fixpoint str_eqb (a b : str) : bool :=
  match a, b with
  | [], [] => true
  | x :: a', y :: b' => N.eqb x y && str_eqb a' b'
  | _, _ => false
  end.

(** [c in chars] for a character and a string of characters. *)
Definition char_in (c : N) (chars : str) : bool := existsb (N.eqb c) chars.

Definition in_range (lo hi c : N) : bool := (N.leb lo c && N.leb c hi)%bool.

(** [str.isspace] on one character, which is also what [\s] matches in a
    [str] pattern: the code points CPython's [_PyUnicode_IsWhitespace]
    accepts. *)
Definition isspace (c : N) : bool :=
  in_range 0x09 0x0D c || in_range 0x1C 0x20 c || N.eqb c 0x85 ||
  N.eqb c 0xA0 || N.eqb c 0x1680 || in_range 0x2000 0x200A c ||
  N.eqb c 0x2028 || N.eqb c 0x2029 || N.eqb c 0x202F || N.eqb c 0x205F ||
  N.eqb c 0x3000.

Definition is_ascii_upper (c : N) : bool := in_range 65 90 c.
Definition is_ascii_lower (c : N) : bool := in_range 97 122 c.
Definition is_ascii_digit (c : N) : bool := in_range 48 57 c.

(** [str.isalpha] on one character, given for the code points below 128.
    Its only call site, in [sanitize_id_part], applies it to a character
    that survived the [re.sub] filter, which keeps ASCII characters only
    (lemma [safe_char_ascii] below). *)
Definition isalpha (c : N) : bool := is_ascii_upper c || is_ascii_lower c.

Fixpoint dropwhile (p : N -> bool) (s : str) : str :=
  match s with
  | [] => []
  | c :: s' => if p c then dropwhile p s' else s
  end.

Definition lstrip_with (p : N -> bool) (s : str) : str := dropwhile p s.
Definition rstrip_with (p : N -> bool) (s : str) : str :=
  rev (dropwhile p (rev s)).

(** [s.strip()] *)
Definition strip (s : str) : str := rstrip_with isspace (lstrip_with isspace s).

(** [s.rstrip(chars)] *)
Definition rstrip (chars : str) (s : str) : str :=
  rstrip_with (fun c => char_in c chars) s.

(** [s[start:]] for an integer [start]: a negative start counts from the
    end and is clamped at 0; [-0] is [0]. *)
Definition slice_from (start : Z) (s : str) : str :=
  if (start <? 0)%Z
  then skipn (Z.to_nat (Z.max 0 (len s + start))) s
  else skipn (Z.to_nat start) s.

(** [s[:stop]] for an integer [stop]. *)
Definition slice_to (stop : Z) (s : str) : str :=
  if (stop <? 0)%Z
  then firstn (Z.to_nat (Z.max 0 (len s + stop))) s
  else firstn (Z.to_nat stop) s.

(** [str(n)] for a non-negative integer: decimal digits, most significant
    first. The fuel is the bit length, which bounds the digit count. *)
Fixpoint digits_of (fuel : nat) (n : N) (acc : str) : str :=
  let acc' := (48 + n mod 10)%N :: acc in
  match fuel with
  | O => acc'
  | S f => if (n / 10 =? 0)%N then acc' else digits_of f (n / 10)%N acc'
  end.

Definition str_of_N (n : N) : str := digits_of (N.to_nat (N.log2 n)) n [].

(** [str(z)], which is what [f"{z}"] renders for an [int]. *)
Definition str_of_int (z : Z) : str :=
  match z with
  | Z0 => u "0"
  | Zpos p => str_of_N (Npos p)
  | Zneg p => 45%N :: str_of_N (Npos p)
  end.

(** [s.encode()]: UTF-8. (Python raises on a lone surrogate; the strings
    encoded here are ASCII, see [doc_id_ascii].) *)
Definition encode_char (c : N) : list N :=
  if (c <? 0x80)%N then [c]
  else if (c <? 0x800)%N then
    [N.lor 0xC0 (N.shiftr c 6); N.lor 0x80 (N.land c 0x3F)]
  else if (c <? 0x10000)%N then
    [N.lor 0xE0 (N.shiftr c 12); N.lor 0x80 (N.land (N.shiftr c 6) 0x3F);
     N.lor 0x80 (N.land c 0x3F)]
  else
    [N.lor 0xF0 (N.shiftr c 18); N.lor 0x80 (N.land (N.shiftr c 12) 0x3F);
     N.lor 0x80 (N.land (N.shiftr c 6) 0x3F); N.lor 0x80 (N.land c 0x3F)].

Definition encode (s : str) : list N := flat_map encode_char s.

End Py.

Import Py.

(** ** [hashlib.md5]

    RFC 1321 on 32-bit words held in [N], wrap-around written out. *)

Module MD5.

Local Open Scope N_scope.

Definition mask32 : N := 0xFFFFFFFF.
Definition add32 (a b : N) : N := (a + b) mod 0x100000000.
Definition not32 (a : N) : N := N.lxor a mask32.
Definition rotl32 (x s : N) : N :=
  N.lor (N.land (N.shiftl x s) mask32) (N.shiftr x (32 - s)).

Definition K : list N :=
  [0xd76aa478; 0xe8c7b756; 0x242070db; 0xc1bdceee; 0xf57c0faf; 0x4787c62a;
   0xa8304613; 0xfd469501; 0x698098d8; 0x8b44f7af; 0xffff5bb1; 0x895cd7be;
   0x6b901122; 0xfd987193; 0xa679438e; 0x49b40821; 0xf61e2562; 0xc040b340;
   0x265e5a51; 0xe9b6c7aa; 0xd62f105d; 0x02441453; 0xd8a1e681; 0xe7d3fbc8;
   0x21e1cde6; 0xc33707d6; 0xf4d50d87; 0x455a14ed; 0xa9e3e905; 0xfcefa3f8;
   0x676f02d9; 0x8d2a4c8a; 0xfffa3942; 0x8771f681; 0x6d9d6122; 0xfde5380c;
   0xa4beea44; 0x4bdecfa9; 0xf6bb4b60; 0xbebfbc70; 0x289b7ec6; 0xeaa127fa;
   0xd4ef3085; 0x04881d05; 0xd9d4d039; 0xe6db99e5; 0x1fa27cf8; 0xc4ac5665;
   0xf4292244; 0x432aff97; 0xab9423a7; 0xfc93a039; 0x655b59c3; 0x8f0ccc92;
   0xffeff47d; 0x85845dd1; 0x6fa87e4f; 0xfe2ce6e0; 0xa3014314; 0x4e0811a1;
   0xf7537e82; 0xbd3af235; 0x2ad7d2bb; 0xeb86d391].

Definition shifts : list N :=
  [7; 12; 17; 22; 7; 12; 17; 22; 7; 12; 17; 22; 7; 12; 17; 22;
   5; 9; 14; 20; 5; 9; 14; 20; 5; 9; 14; 20; 5; 9; 14; 20;
   4; 11; 16; 23; 4; 11; 16; 23; 4; 11; 16; 23; 4; 11; 16; 23;
   6; 10; 15; 21; 6; 10; 15; 21; 6; 10; 15; 21; 6; 10; 15; 21].

Record state := mk_state { sa : N; sb : N; sc : N; sd : N }.

Definition init : state :=
  mk_state 0x67452301 0xefcdab89 0x98badcfe 0x10325476.

(** A 32-bit word from four bytes, least significant first. *)
Definition word_le (bs : list N) : N :=
  fold_right (fun b acc => b + 256 * acc) 0 bs.

Fixpoint words_le (n : nat) (bs : list N) : list N :=
  match n with
  | O => []
  | S n' => word_le (firstn 4 bs) :: words_le n' (skipn 4 bs)
  end.

Definition round (m : list N) (st : state) (i : nat) : state :=
  let '(mk_state a b c d) := st in
  let i' := N.of_nat i in
  let '(f, g) :=
    if i' <? 16 then (N.lor (N.land b c) (N.land (not32 b) d), i')
    else if i' <? 32 then
      (N.lor (N.land d b) (N.land (not32 d) c), (5 * i' + 1) mod 16)
    else if i' <? 48 then (N.lxor b (N.lxor c d), (3 * i' + 5) mod 16)
    else (N.lxor c (N.lor b (not32 d)), (7 * i') mod 16) in
  let f' := add32 (add32 (add32 f a) (nth i K 0)) (nth (N.to_nat g) m 0) in
  mk_state d (add32 b (rotl32 f' (nth i shifts 0))) b c.

Definition block (st : state) (bs : list N) : state :=
  let m := words_le 16 bs in
  let st' := fold_left (round m) (seq 0 64) st in
  mk_state (add32 (sa st) (sa st')) (add32 (sb st) (sb st'))
           (add32 (sc st) (sc st')) (add32 (sd st) (sd st')).

Fixpoint blocks (n : nat) (st : state) (bs : list N) : state :=
  match n with
  | O => st
  | S n' => blocks n' (block st (firstn 64 bs)) (skipn 64 bs)
  end.

(** The bytes of [x], least significant first, [n] of them. *)
Fixpoint bytes_le (n : nat) (x : N) : list N :=
  match n with
  | O => []
  | S n' => x mod 256 :: bytes_le n' (x / 256)
  end.

Definition pad (msg : list N) : list N :=
  let l := N.of_nat (List.length msg) in
  let zeros := N.to_nat ((64 + 55 - l mod 64) mod 64) in
  msg ++ [0x80] ++ repeat 0 zeros ++ bytes_le 8 ((8 * l) mod 0x10000000000000000).

Definition digest (msg : list N) : list N :=
  let p := pad msg in
  let st := blocks (Nat.div (List.length p) 64) init p in
  bytes_le 4 (sa st) ++ bytes_le 4 (sb st) ++
  bytes_le 4 (sc st) ++ bytes_le 4 (sd st).

Definition hex_digit (n : N) : N := if n <? 10 then 48 + n else 87 + n.

Definition hex_byte (b : N) : str := [hex_digit (b / 16); hex_digit (b mod 16)].

(** [hashlib.md5(msg).hexdigest()] *)
Definition hexdigest (msg : list N) : str := flat_map hex_byte (digest msg).

End MD5.

(** ** Results and exceptions *)

(** The exceptions the modelled code can raise, and the two error kinds the
    specification names, which no statement of the module raises. *)
Inductive exn :=
  | AttributeError
  | TypeError
  | KeyError
  | InvalidConfiguration
  | InvalidInput.

Definition result (A : Type) : Type := (exn + A)%type.

Definition ret {A} (a : A) : result A := inr a.
Definition raise {A} (e : exn) : result A := inl e.
Definition bind {A B} (m : result A) (k : A -> result B) : result B :=
  match m with
  | inl e => inl e
  | inr a => k a
  end.

Notation "x <- m ;; k" := (bind m (fun x => k))
  (at level 61, m at next level, right associativity).
Notation "' p <- m ;; k" := (bind m (fun x => match x with p => k end))
  (at level 61, p pattern, m at next level, right associativity).

(** ** [create_document_id] *)

(** The complement of the class in [re.sub(r'[^a-zA-Z0-9\-_]', '', text)]:
    the characters the substitution keeps. *)
Definition is_safe_char (c : N) : bool :=
  is_ascii_lower c || is_ascii_upper c || is_ascii_digit c ||
  N.eqb c 45 || N.eqb c 95.

(** The inner function; its three calls pass [max_length], so the default
    of 30 is never used. *)
Definition sanitize_id_part (text : str) (max_length : Z) : str :=
  let safe_text := filter is_safe_char text in
  let safe_text :=
    match safe_text with
    | c :: _ => if negb (isalpha c) then u "doc" ++ safe_text else safe_text
    | [] => safe_text
    end in
  let safe_text :=
    match safe_text with [] => u "unknown" | _ => safe_text end in
  let safe_text :=
    if (len safe_text >? max_length)%Z
    then slice_to max_length safe_text else safe_text in
  let safe_text := rstrip (u "-_") safe_text in
  match safe_text with [] => u "unknown" | _ => safe_text end.

Definition underscore : str := u "_".

(** The identifier before the length check. *)
Definition joined_id (safe_site safe_drive safe_item : str)
    (chunk_index : option Z) : str :=
  match chunk_index with
  | Some ci =>
      safe_site ++ underscore ++ safe_drive ++ underscore ++ safe_item ++
      underscore ++ str_of_int ci
  | None =>
      safe_site ++ underscore ++ safe_drive ++ underscore ++ safe_item
  end.

(** The shortened identifier of the over-length branch. *)
Definition hashed_id (safe_site safe_drive doc_id : str)
    (chunk_index : option Z) : str :=
  let hash_suffix := slice_to 8 (MD5.hexdigest (encode doc_id)) in
  match chunk_index with
  | Some ci =>
      slice_to 10 safe_site ++ underscore ++ slice_to 10 safe_drive ++
      underscore ++ hash_suffix ++ underscore ++ str_of_int ci
  | None =>
      slice_to 10 safe_site ++ underscore ++ slice_to 10 safe_drive ++
      underscore ++ hash_suffix
  end.

Definition create_document_id (site_id drive_id item_id : str)
    (chunk_index : option Z) : str :=
  let safe_site := sanitize_id_part site_id 20 in
  let safe_drive := sanitize_id_part drive_id 20 in
  let safe_item := sanitize_id_part item_id 40 in
  let doc_id := joined_id safe_site safe_drive safe_item chunk_index in
  if (len doc_id >? 1024)%Z
  then hashed_id safe_site safe_drive doc_id chunk_index
  else doc_id.

(** [^[A-Za-z][A-Za-z0-9_-]*$] as a decision on a string. *)
Definition matches_id_pattern (s : str) : bool :=
  match s with
  | [] => false
  | c :: s' => isalpha c && forallb is_safe_char s'
  end.

(** ** Dynamic values

    The JSON-shaped data the Graph API returns, as Python sees it after
    decoding: [None], [bool], [int], [str], [list] and [dict] with string
    keys. A dict is an association list; [dict_get] reads the first binding
    of a key. *)

Inductive value :=
  | VNone
  | VBool (b : bool)
  | VInt (z : Z)
  | VStr (s : str)
  | VList (items : list value)
  | VDict (entries : list (str * value)).

Definition dict := list (str * value).

Fixpoint dict_get (k : str) (d : dict) : option value :=
  match d with
  | [] => None
  | (k', v) :: d' => if str_eqb k k' then Some v else dict_get k d'
  end.

(** ** [TextChunk] and [TextChunker] *)

Record TextChunk := mkTextChunk {
  text : str;
  chunk_index : Z;
  start_char : Z;
  end_char : Z;
  metadata : dict
}.

Record TextChunker := mkTextChunker {
  chunk_size : Z;
  chunk_overlap : Z
}.

(** [TextChunker.__init__]: stores both arguments; it has no [raise]. *)
Definition TextChunker_init (chunk_size chunk_overlap : Z) : result TextChunker :=
  ret (mkTextChunker chunk_size chunk_overlap).

(** The defaults of [__init__]. *)
Definition default_chunk_size : Z := 1000.
Definition default_chunk_overlap : Z := 200.

Definition newline : N := 10.
Definition ideographic_full_stop : N := 0x3002.

(** After a newline, what [\s*\n] consumes: the greedy whitespace run is
    given back up to its last newline. [blank_tail s 0 None] is the number
    of characters consumed, [None] when the run holds no newline. *)
Fixpoint blank_tail (s : str) (pos : nat) (last : option nat) : option nat :=
  match s with
  | [] => last
  | c :: s' =>
      if isspace c
      then blank_tail s' (S pos) (if N.eqb c newline then Some (S pos) else last)
      else last
  end.

(** [re.split(r'\n\s*\n', s)], scanning left to right. [skip] counts the
    characters of the current match still to pass over; [piece] is the
    piece being collected, reversed. *)
Fixpoint re_split_blank_lines (s : str) (skip : nat) (piece : str) : list str :=
  match s with
  | [] => [rev piece]
  | c :: s' =>
      match skip with
      | S k => re_split_blank_lines s' k piece
      | O =>
          if N.eqb c newline then
            match blank_tail s' 0 None with
            | Some n => rev piece :: re_split_blank_lines s' n []
            | None => re_split_blank_lines s' 0 (c :: piece)
            end
          else re_split_blank_lines s' 0 (c :: piece)
      end
  end.

Definition nonempty (s : str) : bool :=
  match s with [] => false | _ => true end.

Definition _split_into_paragraphs (text : str) : list str :=
  let paragraphs := re_split_blank_lines text 0 [] in
  map strip (filter (fun p => nonempty (strip p)) paragraphs).

(** The class of sentence ends: U+3002 (the ideographic full stop), [.],
    [!] and [?]. *)
Definition is_sentence_end (c : N) : bool :=
  N.eqb c ideographic_full_stop || N.eqb c 46 || N.eqb c 33 || N.eqb c 63.

(** The length of the whitespace run [\s*] takes at the head of [s]. *)
Fixpoint space_run (s : str) : nat :=
  match s with
  | [] => O
  | c :: s' => if isspace c then S (space_run s') else O
  end.

(** [re.split] on a sentence end followed by [\s*]. *)
Fixpoint re_split_sentence_ends (s : str) (skip : nat) (piece : str) : list str :=
  match s with
  | [] => [rev piece]
  | c :: s' =>
      match skip with
      | S k => re_split_sentence_ends s' k piece
      | O =>
          if is_sentence_end c
          then rev piece :: re_split_sentence_ends s' (space_run s') []
          else re_split_sentence_ends s' 0 (c :: piece)
      end
  end.

Definition _split_into_sentences (text : str) : list str :=
  let sentences := re_split_sentence_ends text 0 [] in
  map (fun s => strip s ++ [ideographic_full_stop])
      (filter (fun s => nonempty (strip s)) sentences).

Definition _create_chunk (text : str) (index start end_ : Z)
    (metadata : option dict) : TextChunk :=
  mkTextChunk text index start end_
    (match metadata with Some m => m | None => [] end).

(** The local variables of [split_text] that its loops update. *)
Record loop_state := mkState {
  st_chunks : list TextChunk;
  st_current_chunk : str;
  st_current_start : Z;
  st_chunk_index : Z
}.

(** [current_chunk[-self.chunk_overlap:] if len(current_chunk) >
    self.chunk_overlap else current_chunk] *)
Definition overlap_text (self : TextChunker) (current_chunk : str) : str :=
  if (len current_chunk >? chunk_overlap self)%Z
  then slice_from (- chunk_overlap self) current_chunk
  else current_chunk.

(** One pass of the inner loop, [for sentence in sentences]. *)
Definition add_sentence (self : TextChunker) (metadata : option dict)
    (st : loop_state) (sentence : str) : loop_state :=
  let '(mkState chunks current_chunk current_start chunk_index) := st in
  if (len current_chunk + len sentence <=? chunk_size self)%Z then
    mkState chunks (current_chunk ++ (sentence ++ u " ")) current_start chunk_index
  else if nonempty current_chunk then
    let chunks := chunks ++ [_create_chunk (strip current_chunk) chunk_index
                               current_start (current_start + len current_chunk)
                               metadata] in
    let chunk_index := (chunk_index + 1)%Z in
    let overlap := overlap_text self current_chunk in
    let current_chunk := (overlap ++ sentence) ++ u " " in
    let current_start := (current_start + (len current_chunk - len overlap))%Z in
    mkState chunks current_chunk current_start chunk_index
  else
    mkState chunks (sentence ++ u " ") current_start chunk_index.

Definition blank_line : str := [newline; newline].

(** One pass of the outer loop, [for para in paragraphs]. *)
Definition add_paragraph (self : TextChunker) (metadata : option dict)
    (st : loop_state) (para : str) : loop_state :=
  if (len para >? chunk_size self)%Z then
    fold_left (add_sentence self metadata) (_split_into_sentences para) st
  else
    let '(mkState chunks current_chunk current_start chunk_index) := st in
    if (len current_chunk + len para <=? chunk_size self)%Z then
      mkState chunks (current_chunk ++ (para ++ blank_line)) current_start chunk_index
    else if nonempty current_chunk then
      let chunks := chunks ++ [_create_chunk (strip current_chunk) chunk_index
                                 current_start (current_start + len current_chunk)
                                 metadata] in
      let chunk_index := (chunk_index + 1)%Z in
      let overlap := overlap_text self current_chunk in
      let current_chunk := (overlap ++ para) ++ blank_line in
      let current_start := (current_start + (len current_chunk - len overlap))%Z in
      mkState chunks current_chunk current_start chunk_index
    else
      mkState chunks (para ++ blank_line) current_start chunk_index.

Definition initial_state : loop_state := mkState [] [] 0 0.

(** The last chunk, emitted after the loops. *)
Definition finish (metadata : option dict) (st : loop_state) : list TextChunk :=
  let '(mkState chunks current_chunk current_start chunk_index) := st in
  if nonempty (strip current_chunk) then
    chunks ++ [_create_chunk (strip current_chunk) chunk_index current_start
                 (current_start + len current_chunk) metadata]
  else chunks.

Definition split_text (self : TextChunker) (text : str)
    (metadata : option dict) : list TextChunk :=
  if negb (nonempty text) || negb (nonempty (strip text)) then []
  else
    let paragraphs := _split_into_paragraphs text in
    finish metadata
      (fold_left (add_paragraph self metadata) paragraphs initial_state).

(** ** Python operations on dynamic values *)

(** [bool(v)] *)
Definition truthy (v : value) : bool :=
  match v with
  | VNone => false
  | VBool b => b
  | VInt z => negb (z =? 0)%Z
  | VStr s => nonempty s
  | VList items => match items with [] => false | _ => true end
  | VDict entries => match entries with [] => false | _ => true end
  end.

(** [x.get(k, default)]: of the values modelled, only a dict has [get]. *)
Definition py_get (x : value) (k : str) (default : value) : result value :=
  match x with
  | VDict d => ret (match dict_get k d with Some v => v | None => default end)
  | _ => raise AttributeError
  end.

Fixpoint prefix_eqb (p s : str) : bool :=
  match p, s with
  | [], _ => true
  | x :: p', y :: s' => N.eqb x y && prefix_eqb p' s'
  | _ :: _, [] => false
  end.

Fixpoint is_substring (p s : str) : bool :=
  prefix_eqb p s ||
  match s with
  | [] => false
  | _ :: s' => is_substring p s'
  end.

(** [k in x] for a string [k]: key membership in a dict, substring test in
    a string, element equality in a list; the other values are not
    containers. *)
Definition py_contains (k : str) (x : value) : result bool :=
  match x with
  | VDict d => ret (match dict_get k d with Some _ => true | None => false end)
  | VStr s => ret (is_substring k s)
  | VList items =>
      ret (existsb (fun v => match v with VStr s => str_eqb s k | _ => false end)
                   items)
  | VNone | VBool _ | VInt _ => raise TypeError
  end.

(** [x[k]] for a string [k]. *)
Definition py_getitem (x : value) (k : str) : result value :=
  match x with
  | VDict d =>
      match dict_get k d with
      | Some v => ret v
      | None => raise KeyError
      end
  | _ => raise TypeError
  end.

(** The keys of a dict, each once, in insertion order. *)
Fixpoint dict_keys (d : dict) (seen : list str) : list str :=
  match d with
  | [] => []
  | (k, _) :: d' =>
      if existsb (str_eqb k) seen then dict_keys d' seen
      else k :: dict_keys d' (k :: seen)
  end.

(** What [for x in v] iterates over. *)
Definition py_iter (v : value) : result (list value) :=
  match v with
  | VList items => ret items
  | VDict d => ret (map VStr (dict_keys d []))
  | VStr s => ret (map (fun c => VStr [c]) s)
  | VNone | VBool _ | VInt _ => raise TypeError
  end.

Definition hashable (v : value) : bool :=
  match v with
  | VList _ | VDict _ => false
  | _ => true
  end.

Definition int_of_bool (b : bool) : Z := if b then 1%Z else 0%Z.

(** [a == b] on hashable values; [True == 1] and [False == 0]. *)
Definition py_eqb (a b : value) : bool :=
  match a, b with
  | VNone, VNone => true
  | VBool x, VBool y => Bool.eqb x y
  | VBool x, VInt y | VInt y, VBool x => (int_of_bool x =? y)%Z
  | VInt x, VInt y => (x =? y)%Z
  | VStr x, VStr y => str_eqb x y
  | _, _ => false
  end.

(** The elements of [set(xs)] built by inserting left to right: an element
    equal to an earlier one is dropped. [seen] is reversed. *)
Fixpoint set_insert_all (xs : list value) (seen : list value) : list value :=
  match xs with
  | [] => rev seen
  | x :: xs' =>
      if existsb (py_eqb x) seen then set_insert_all xs' seen
      else set_insert_all xs' (x :: seen)
  end.

(** [list(set(xs))]: fails on an unhashable element. Python leaves the
    order of the result unspecified; the model lists the elements in
    insertion order, and the theorems below do not depend on the order. *)
Definition py_list_set (xs : list value) : result (list value) :=
  if forallb hashable xs then ret (set_insert_all xs []) else raise TypeError.

Fixpoint foldM {A B} (f : B -> A -> result B) (l : list A) (b : B) : result B :=
  match l with
  | [] => ret b
  | a :: l' => b' <- f b a ;; foldM f l' b'
  end.

(** ** [extract_acl_from_permissions] *)

Definition acl := (list value * list value)%type.

(** [x = who.get(key); if x and "id" in x: ids.append(x["id"])] *)
Definition collect_id (who : value) (key : str) (ids : list value)
    : result (list value) :=
  x <- py_get who key VNone ;;
  if truthy x then
    has_id <- py_contains (u "id") x ;;
    if has_id then (i <- py_getitem x (u "id") ;; ret (ids ++ [i]))
    else ret ids
  else ret ids.

(** The user and group statements, which the function applies to [granted]
    and to every [identity]. *)
Definition collect (acc : acl) (who : value) : result acl :=
  let '(user_ids, group_ids) := acc in
  user_ids <- collect_id who (u "user") user_ids ;;
  group_ids <- collect_id who (u "group") group_ids ;;
  ret (user_ids, group_ids).

(** [perm.get("grantedToV2") or perm.get("grantedTo")] *)
Definition granted_of (perm : value) : result value :=
  v2 <- py_get perm (u "grantedToV2") VNone ;;
  if truthy v2 then ret v2 else py_get perm (u "grantedTo") VNone.

(** [perm.get("grantedToIdentitiesV2") or perm.get("grantedToIdentities", [])] *)
Definition identities_of (perm : value) : result value :=
  v2 <- py_get perm (u "grantedToIdentitiesV2") VNone ;;
  if truthy v2 then ret v2
  else py_get perm (u "grantedToIdentities") (VList []).

(** The body of [for perm in permissions]. *)
Definition extract_perm (acc : acl) (perm : value) : result acl :=
  granted <- granted_of perm ;;
  acc <- (if truthy granted then collect acc granted else ret acc) ;;
  identities <- identities_of perm ;;
  items <- py_iter identities ;;
  foldM collect items acc.

(** The loop: [user_ids] and [group_ids] as they stand before the
    [return]. *)
Definition collected_ids (permissions : value) : result acl :=
  perms <- py_iter permissions ;;
  foldM extract_perm perms ([], []).

Definition extract_acl_from_permissions (permissions : value) : result acl :=
  '(user_ids, group_ids) <- collected_ids permissions ;;
  users <- py_list_set user_ids ;;
  groups <- py_list_set group_ids ;;
  ret (users, groups).

(** ** [str.join], [str.strip(chars)] and [bytes.decode] *)

Definition bytes := list N.

(** [sep.join(parts)] *)
Fixpoint join (sep : str) (parts : list str) : str :=
  match parts with
  | [] => []
  | [p] => p
  | p :: rest => p ++ sep ++ join sep rest
  end.

(** [s.strip(chars)] *)
Definition strip_chars (chars : str) (s : str) : str :=
  rstrip_with (fun c => char_in c chars) (lstrip_with (fun c => char_in c chars) s).

(** A continuation byte, [10xxxxxx]. *)
Definition is_continuation (b : N) : bool := in_range 0x80 0xBF b.

(** [content.decode('utf-8')]: [None] stands for [UnicodeDecodeError]. The
    decoder is strict: it refuses a stray or missing continuation byte, an
    overlong form, a surrogate and a value above U+10FFFF. *)
Fixpoint utf8_decode (content : bytes) : option str :=
  match content with
  | [] => Some []
  | b0 :: t0 =>
      if (b0 <? 0x80)%N then option_map (cons b0) (utf8_decode t0)
      else if in_range 0xC2 0xDF b0 then
        match t0 with
        | b1 :: t1 =>
            if is_continuation b1
            then option_map (cons ((b0 - 0xC0) * 64 + (b1 - 0x80))%N)
                            (utf8_decode t1)
            else None
        | _ => None
        end
      else if in_range 0xE0 0xEF b0 then
        match t0 with
        | b1 :: b2 :: t2 =>
            let c := ((b0 - 0xE0) * 4096 + (b1 - 0x80) * 64 + (b2 - 0x80))%N in
            if is_continuation b1 && is_continuation b2 &&
               (0x800 <=? c)%N && negb (in_range 0xD800 0xDFFF c)
            then option_map (cons c) (utf8_decode t2)
            else None
        | _ => None
        end
      else if in_range 0xF0 0xF4 b0 then
        match t0 with
        | b1 :: b2 :: b3 :: t3 =>
            let c := ((b0 - 0xF0) * 262144 + (b1 - 0x80) * 4096 +
                      (b2 - 0x80) * 64 + (b3 - 0x80))%N in
            if is_continuation b1 && is_continuation b2 && is_continuation b3 &&
               in_range 0x10000 0x10FFFF c
            then option_map (cons c) (utf8_decode t3)
            else None
        | _ => None
        end
      else None
  end.

(** ** [TextExtractor] *)

(** What the module takes from outside: [str.lower], the two legacy codecs,
    and the four document libraries with their availability flags. A
    library call returns the data the module reads from the parsed
    document, or the [str(e)] of the exception it raised. *)
Record Libraries := mkLibraries {
  str_lower : str -> str;
  decode_shift_jis : bytes -> option str;
  decode_cp932_ignore : bytes -> str;
  PDF_AVAILABLE : bool;
  pdf_extract_text : bytes -> str + str;
  DOCX_AVAILABLE : bool;
  (** [p.text] for each [p] of [doc.paragraphs] *)
  DocxDocument : bytes -> str + list str;
  PPTX_AVAILABLE : bool;
  (** for each slide its shapes, a shape being its [text] when it has one *)
  Presentation : bytes -> str + list (list (option str));
  EXCEL_AVAILABLE : bool;
  (** the type of a cell value that is not [None], and [str] on it *)
  cell : Type;
  str_of_cell : cell -> str;
  (** for each sheet its name and its rows of cell values *)
  load_workbook : bytes -> str + list (str * list (list (option cell)))
}.

(** The exceptions of [TextExtractor], each with its message. *)
Inductive extract_exn :=
  | ImportError (message : str)
  | Exception (message : str)
  | ValueError (message : str).

Definition extraction (A : Type) : Type := (extract_exn + A)%type.

(** The message literals, as code points. *)
Definition needs_suffix : str := [0x20; 0x304c; 0x5fc5; 0x8981; 0x3067; 0x3059]%N.
Definition error_suffix : str :=
  [0x62bd; 0x51fa; 0x30a8; 0x30e9; 0x30fc; 0x3a; 0x20]%N.
Definition slide_header (slide_num : Z) : str :=
  u "--- " ++ [0x30b9; 0x30e9; 0x30a4; 0x30c9; 0x20]%N ++
  str_of_int slide_num ++ u " ---".
Definition sheet_header (sheet_name : str) : str :=
  u "--- " ++ [0x30b7; 0x30fc; 0x30c8; 0x3a; 0x20]%N ++ sheet_name ++ u " ---".
Definition unsupported_prefix : str :=
  [0x30b5; 0x30dd; 0x30fc; 0x30c8; 0x3055; 0x308c; 0x3066; 0x3044; 0x306a;
   0x3044; 0x62e1; 0x5f35; 0x5b50; 0x3a; 0x20]%N.

Definition extract_from_pdf (L : Libraries) (content : bytes) : extraction str :=
  if negb (PDF_AVAILABLE L) then inl (ImportError (u "pdfminer.six" ++ needs_suffix))
  else
    match pdf_extract_text L content with
    | inr text => inr (strip text)
    | inl e => inl (Exception (u "PDF" ++ error_suffix ++ e))
    end.

(** The text built from the paragraphs of a Word document. *)
Definition docx_text (texts : list str) : str :=
  let paragraphs := filter (fun t => nonempty (strip t)) texts in
  join blank_line paragraphs.

Definition extract_from_docx (L : Libraries) (content : bytes) : extraction str :=
  if negb (DOCX_AVAILABLE L) then inl (ImportError (u "python-docx" ++ needs_suffix))
  else
    match DocxDocument L content with
    | inr texts => inr (docx_text texts)
    | inl e => inl (Exception (u "Word" ++ error_suffix ++ e))
    end.

(** The lines of one slide: its header, then the text of every shape that
    has a text which is not blank. *)
Definition slide_lines (slide_num : Z) (shapes : list (option str)) : list str :=
  slide_header slide_num ::
  flat_map (fun shape =>
              match shape with
              | Some t => if nonempty (strip t) then [strip t] else []
              | None => []
              end) shapes.

(** [text_runs] over [enumerate(slides, slide_num)]. *)
Fixpoint text_runs (slide_num : Z) (slides : list (list (option str))) : list str :=
  match slides with
  | [] => []
  | shapes :: rest =>
      join [newline] (slide_lines slide_num shapes) ::
      text_runs (slide_num + 1) rest
  end.

Definition pptx_text (slides : list (list (option str))) : str :=
  join blank_line (text_runs 1 slides).

Definition extract_from_pptx (L : Libraries) (content : bytes) : extraction str :=
  if negb (PPTX_AVAILABLE L) then inl (ImportError (u "python-pptx" ++ needs_suffix))
  else
    match Presentation L content with
    | inr slides => inr (pptx_text slides)
    | inl e => inl (Exception (u "PowerPoint" ++ error_suffix ++ e))
    end.

(** [" | ".join([str(cell) if cell is not None else "" for cell in row])] *)
Definition row_text (L : Libraries) (row : list (option (cell L))) : str :=
  join (u " | ")
    (map (fun c => match c with Some v => str_of_cell L v | None => [] end) row).

(** The lines of one sheet: its header, then every row whose text is not
    empty once spaces and bars are stripped from both ends. *)
Definition sheet_lines (L : Libraries) (sheet_name : str)
    (rows : list (list (option (cell L)))) : list str :=
  sheet_header sheet_name ::
  filter (fun t => nonempty (strip_chars (u " |") t)) (map (row_text L) rows).

(** [len] of a list. *)
Definition len_list {A} (l : list A) : Z := Z.of_nat (List.length l).

Definition text_parts (L : Libraries)
    (sheets : list (str * list (list (option (cell L))))) : list str :=
  flat_map (fun sheet =>
              let sheet_text := sheet_lines L (fst sheet) (snd sheet) in
              if (len_list sheet_text >? 1)%Z
              then [join [newline] sheet_text] else [])
           sheets.

Definition xlsx_text (L : Libraries)
    (sheets : list (str * list (list (option (cell L))))) : str :=
  join blank_line (text_parts L sheets).

Definition extract_from_xlsx (L : Libraries) (content : bytes) : extraction str :=
  if negb (EXCEL_AVAILABLE L) then inl (ImportError (u "openpyxl" ++ needs_suffix))
  else
    match load_workbook L content with
    | inr sheets => inr (xlsx_text L sheets)
    | inl e => inl (Exception (u "Excel" ++ error_suffix ++ e))
    end.

(** UTF-8 first, then Shift-JIS, then CP932 dropping what it cannot
    decode. *)
Definition extract_from_txt (L : Libraries) (content : bytes) : str :=
  match utf8_decode content with
  | Some s => s
  | None =>
      match decode_shift_jis L content with
      | Some s => s
      | None => decode_cp932_ignore L content
      end
  end.

Definition extract (L : Libraries) (content : bytes) (file_extension : str)
    : extraction str :=
  let ext := str_lower L file_extension in
  if str_eqb ext (u ".pdf") then extract_from_pdf L content
  else if str_eqb ext (u ".docx") then extract_from_docx L content
  else if existsb (str_eqb ext) [u ".pptx"; u ".ppt"] then extract_from_pptx L content
  else if existsb (str_eqb ext) [u ".xlsx"; u ".xls"] then extract_from_xlsx L content
  else if str_eqb ext (u ".txt") then inr (extract_from_txt L content)
  else inl (ValueError (unsupported_prefix ++ ext)).

(** * Notions used to state the properties *)

(** The number a string of decimal digits denotes. *)
Definition digits_value (s : str) : N :=
  fold_left (fun v c => 10 * v + (c - 48))%N s 0%N.

(** The last [n] characters of [s], all of [s] when it is shorter. *)
Definition last_chars (n : nat) (s : str) : str :=
  skipn (List.length s - n) s.

(** [sub] occurs in [s] as a contiguous run. *)
Definition occurs_in (sub s : str) : Prop := exists a b, s = a ++ sub ++ b.

(** A unit of the fill/flush policy with the separator appended after it:
    a sentence and a space, or a paragraph and a blank line. *)
Definition unit_ : Type := (str * str)%type.

(** Both branches of [add_paragraph] and [add_sentence] run the same
    statements on a unit and its separator. *)
Definition add_unit (self : TextChunker) (metadata : option dict)
    (st : loop_state) (un : unit_) : loop_state :=
  let '(unit, sep) := un in
  let '(mkState chunks current_chunk current_start chunk_index) := st in
  if (len current_chunk + len unit <=? chunk_size self)%Z then
    mkState chunks (current_chunk ++ (unit ++ sep)) current_start chunk_index
  else if nonempty current_chunk then
    let chunks := chunks ++ [_create_chunk (strip current_chunk) chunk_index
                               current_start (current_start + len current_chunk)
                               metadata] in
    let chunk_index := (chunk_index + 1)%Z in
    let overlap := overlap_text self current_chunk in
    let current_chunk := (overlap ++ unit) ++ sep in
    let current_start := (current_start + (len current_chunk - len overlap))%Z in
    mkState chunks current_chunk current_start chunk_index
  else
    mkState chunks (unit ++ sep) current_start chunk_index.

(** The units one paragraph contributes: its sentences when it is longer
    than [chunk_size], itself otherwise. *)
Definition units_of_paragraph (self : TextChunker) (para : str) : list unit_ :=
  if (len para >? chunk_size self)%Z
  then map (fun s => (s, u " ")) (_split_into_sentences para)
  else [(para, blank_line)].

(** The units [split_text] appends, in order. *)
Definition units (self : TextChunker) (text : str) : list unit_ :=
  flat_map (units_of_paragraph self) (_split_into_paragraphs text).

(** The buffer content a group of units adds. *)
Definition render (g : list unit_) : str :=
  flat_map (fun un => fst un ++ snd un) g.

(** Chunk [c] was emitted from a buffer that holds an overlap prefix and
    then exactly the units of [g], each whole; a unit longer than
    [chunk_size] is the only unit of its group. *)
Definition chunk_holds (self : TextChunker) (c : TextChunk) (g : list unit_) : Prop :=
  g <> [] /\
  (exists overlap, text c = strip (overlap ++ render g)) /\
  (forall un, In un g -> occurs_in (fst un) (text c)) /\
  (forall un, In un g -> (len (fst un) > chunk_size self)%Z -> g = [un]).

(** A string with no whitespace at either end, as [strip] returns when the
    result is not empty. *)
Definition trimmed (s : str) : Prop :=
  (exists c r, s = c :: r /\ isspace c = false) /\
  (exists r l, s = r ++ [l] /\ isspace l = false).

(** The chunk indices are [0, 1, ..., n-1] and the counter is [n]. *)
Definition indexed (st : loop_state) : Prop :=
  map chunk_index (st_chunks st) =
    map Z.of_nat (seq 0 (List.length (st_chunks st))) /\
  st_chunk_index st = Z.of_nat (List.length (st_chunks st)).

(** The loop invariant of [split_text] after the units [us]: the chunks
    emitted so far hold the groups [gs], and the buffer holds an overlap
    prefix [o] and the units of the group [g] being filled. *)
Definition layout (self : TextChunker) (us : list unit_) (st : loop_state) : Prop :=
  exists gs g o,
    Forall2 (chunk_holds self) (st_chunks st) gs /\
    List.concat gs ++ g = us /\
    st_current_chunk st = o ++ render g /\
    ((g = [] /\ st_current_chunk st = []) \/ g <> []) /\
    Forall (fun un => trimmed (fst un)) g /\
    (forall un, In un g -> (len (fst un) > chunk_size self)%Z -> g = [un]).

(** The value a record holds under a key, [None] when the key is absent. *)
Definition field (d : dict) (k : str) : value :=
  match dict_get k d with
  | Some v => v
  | None => VNone
  end.

(** A user or group entry the extractor reads or skips without raising:
    absent or empty, or a mapping whose id, if any, is hashable. *)
Definition ok_principal (x : value) : bool :=
  match x with
  | VDict d =>
      match dict_get (u "id") d with
      | Some i => hashable i
      | None => true
      end
  | _ => negb (truthy x)
  end.

(** A granted-to entry: a mapping whose user and group entries are as
    above. *)
Definition ok_identity (who : value) : bool :=
  match who with
  | VDict d =>
      ok_principal (field d (u "user")) && ok_principal (field d (u "group"))
  | _ => false
  end.

(** A permission record: a mapping whose granted-to value is absent, empty
    or a granted-to entry, and whose granted-to-identities value is absent
    or a list of granted-to entries. *)
Definition ok_permission (perm : value) : bool :=
  match perm with
  | VDict d =>
      match granted_of perm with
      | inr granted => negb (truthy granted) || ok_identity granted
      | inl _ => false
      end &&
      match identities_of perm with
      | inr (VList items) => forallb ok_identity items
      | _ => false
      end
  | _ => false
  end.

Definition is_dict (v : value) : bool :=
  match v with
  | VDict _ => true
  | _ => false
  end.

(** The values [for] cannot iterate over. *)
Definition not_iterable (v : value) : bool :=
  match v with
  | VNone | VBool _ | VInt _ => true
  | _ => false
  end.

(** A record granting one user, under the given granted-to key. *)
Definition grants_user (key id : string) : value :=
  VDict [(u key, VDict [(u "user", VDict [(u "id", VStr (u id))])])].

(** Every id collected so far can be put in a set. *)
Definition hashable_acl (acc : acl) : Prop :=
  forallb hashable (fst acc) = true /\ forallb hashable (snd acc) = true.

(** A list of offsets in which every element is below all later ones. *)
Fixpoint increasing (l : list Z) : Prop :=
  match l with
  | [] => True
  | x :: l' => Forall (fun y => (x < y)%Z) l' /\ increasing l'
  end.

(** The offsets kept by the loops of [split_text]: the running start is
    above the start of every emitted chunk, the starts increase from 0, and
    every span covers at least the text of its chunk. *)
Definition offsets_ok (st : loop_state) : Prop :=
  (st_chunks st = [] -> st_current_start st = 0%Z) /\
  match st_chunks st with [] => True | c :: _ => start_char c = 0%Z end /\
  increasing (map start_char (st_chunks st)) /\
  Forall (fun c => (start_char c < st_current_start st)%Z) (st_chunks st) /\
  Forall (fun c => (0 <= start_char c)%Z /\
                   (start_char c + len (text c) <= end_char c)%Z) (st_chunks st).

(** Every emitted chunk has at most [B] characters, and so has the buffer
    once the whitespace at its end is set aside. *)
Definition bounded (B : Z) (st : loop_state) : Prop :=
  Forall (fun c => (len (text c) <= B)%Z) (st_chunks st) /\
  (st_current_chunk st = [] \/
   exists body ws, st_current_chunk st = body ++ ws /\
                   forallb isspace ws = true /\ (len body <= B)%Z).

(** The buffer content of paragraphs appended one after the other, each
    with its blank line. *)
Definition paragraphs_buffer (paragraphs : list str) : str :=
  flat_map (fun p => p ++ blank_line) paragraphs.

(** An id part that needs no sanitizing under the limit [max_length]: it
    matches the id pattern, is short enough and does not end in a hyphen or
    an underscore. *)
Definition clean_part (max_length : Z) (s : str) : Prop :=
  matches_id_pattern s = true /\ (len s <= max_length)%Z /\
  rstrip (u "-_") s = s.

(** A character of a decimal rendering: a digit or the minus sign. *)
Definition is_number_char (c : N) : bool := is_ascii_digit c || N.eqb c 45.

(** A Unicode scalar value: a code point that is not a surrogate. These
    are the code points [str.encode] accepts. *)
Definition is_scalar (c : N) : bool :=
  (c <? 0xD800)%N || in_range 0xE000 0x10FFFF c.

Definition is_ascii (c : N) : bool := (c <? 128)%N.

(** Lower case of a single ASCII character. *)
Definition ascii_lower (c : N) : N :=
  if is_ascii_upper c then (c + 32)%N else c.

(** What is assumed of [str.lower]: on an ASCII string it lowers each
    letter [A-Z] and keeps every other character. *)
Definition lowers_ascii (L : Libraries) : Prop :=
  forall s, forallb is_ascii s = true -> str_lower L s = map ascii_lower s.

(** The extensions [extract] dispatches on. *)
Definition supported_extensions : list str :=
  [u ".pdf"; u ".docx"; u ".pptx"; u ".ppt"; u ".xlsx"; u ".xls"; u ".txt"].

Definition is_value_error (r : extraction str) : bool :=
  match r with
  | inl (ValueError _) => true
  | _ => false
  end.

(** A set of libraries to run the extractor on: none of the document
    libraries is installed, Shift-JIS decodes nothing, and cells are
    strings. *)
Definition plain_libraries : Libraries :=
  {| str_lower := map ascii_lower;
     decode_shift_jis := fun _ => None;
     decode_cp932_ignore := filter is_ascii;
     PDF_AVAILABLE := false;
     pdf_extract_text := fun _ => inl [];
     DOCX_AVAILABLE := false;
     DocxDocument := fun _ => inl [];
     PPTX_AVAILABLE := false;
     Presentation := fun _ => inl [];
     EXCEL_AVAILABLE := false;
     cell := str;
     str_of_cell := fun s => s;
     load_workbook := fun _ => inl [] |}.

(** The same with python-docx and openpyxl installed, each returning a
    fixed document. *)
Definition office_libraries : Libraries :=
  {| str_lower := map ascii_lower;
     decode_shift_jis := fun _ => None;
     decode_cp932_ignore := filter is_ascii;
     PDF_AVAILABLE := false;
     pdf_extract_text := fun _ => inl [];
     DOCX_AVAILABLE := true;
     DocxDocument := fun _ => inr [u "Title"; u "   "; u " First paragraph. "; []];
     PPTX_AVAILABLE := false;
     Presentation := fun _ => inl [];
     EXCEL_AVAILABLE := true;
     cell := str;
     str_of_cell := fun s => s;
     load_workbook :=
       fun _ => inr [(u "Sheet1", [[None; Some (u " "); Some (u "|")]; [None]]);
                     (u "Empty", [])] |}.

Definition no_newline (s : str) : bool :=
  forallb (fun c => negb (N.eqb c newline)) s.

(** A cell is blank for the row filter when its text holds spaces and bars
    only. *)
Definition blank_cell (L : Libraries) (c : option (cell L)) : bool :=
  match c with
  | Some v => forallb (fun x => char_in x (u " |")) (str_of_cell L v)
  | None => true
  end.

(** A result with the ids of [acc] put in front. *)
Definition extend (acc : acl) (r : result acl) : result acl :=
  match r with
  | inr d => inr (fst acc ++ fst d, snd acc ++ snd d)
  | inl e => inl e
  end.

(** What [_create_chunk] stores for [metadata]: [metadata or {}]. *)
Definition stored_metadata (metadata : option dict) : dict :=
  match metadata with
  | Some m => m
  | None => []
  end.

(** * Properties *)

(** ** Known values *)

Example md5_empty :
  MD5.hexdigest [] = u "d41d8cd98f00b204e9800998ecf8427e".
Proof. vm_compute. reflexivity. Qed.

Example md5_abc :
  MD5.hexdigest (encode (u "abc")) = u "900150983cd24fb0d6963f7d28e17f72".
Proof. vm_compute. reflexivity. Qed.

Example md5_two_blocks :
  MD5.hexdigest (encode (repeat 97%N 1100)) =
  u "6e1dea73a281415ec0b17c675cf3c917".
Proof. vm_compute. reflexivity. Qed.

Example str_of_int_values :
  str_of_int 0 = u "0" /\ str_of_int 1024 = u "1024" /\
  str_of_int (-120) = u "-120".
Proof. vm_compute. repeat split. Qed.

Example slices :
  slice_from (-0) (u "ab") = u "ab" /\ slice_from (-2) (u "abcdef") = u "ef" /\
  slice_from (-5) (u "ab") = u "ab" /\ slice_to (-5) (u "ab") = [] /\
  slice_to 3 (u "abcdef") = u "abc".
Proof. vm_compute. repeat split. Qed.

Example re_split_blank_lines_value :
  re_split_blank_lines
    (u "a" ++ [10; 10; 10] ++ u "b" ++ [10; 32; 9; 10] ++ u "c" ++ [10] ++
     u "d" ++ [10; 32; 10; 10; 32] ++ u "x" ++ [10])%N 0 [] =
  [u "a"; u "b"; u "c" ++ [10%N] ++ u "d"; u " x" ++ [10%N]].
Proof. vm_compute. reflexivity. Qed.

Example re_split_sentence_ends_value :
  re_split_sentence_ends
    (u "Hi. there!  x?y" ++ [ideographic_full_stop] ++ u "z") 0 [] =
  [u "Hi"; u "there"; u "x"; u "y"; u "z"].
Proof. vm_compute. reflexivity. Qed.

Example split_text_two_paragraphs :
  map text
    (split_text (mkTextChunker default_chunk_size default_chunk_overlap)
       (u "Para one." ++ blank_line ++ u "Para two.") None) =
  [u "Para one." ++ blank_line ++ u "Para two."].
Proof. vm_compute. reflexivity. Qed.

Example create_document_id_value :
  create_document_id (u "123-site") (u "drive!") (u "item") (Some 3%Z) =
  u "doc123-site_drive_item_3".
Proof. vm_compute. reflexivity. Qed.

Example extract_acl_value :
  extract_acl_from_permissions
    (VList [grants_user "grantedToV2" "u1";
            VDict [(u "grantedToIdentitiesV2",
                    VList [VDict [(u "group", VDict [(u "id", VStr (u "g1"))])]])]]) =
  inr ([VStr (u "u1")], [VStr (u "g1")]).
Proof. vm_compute. reflexivity. Qed.


(** ** Strings *)

Section Dropwhile.

Variable p : N -> bool.

Lemma dropwhile_suffix (s : str) :
  exists a, s = a ++ dropwhile p s /\ forallb p a = true.
Proof.
  induction s as [|c s IH]; simpl.
  - exists []. split; reflexivity.
  - destruct (p c) eqn:Hc.
    + destruct IH as [a [E F]]. exists (c :: a). simpl.
      rewrite Hc, F. split; [congruence | reflexivity].
    + exists []. split; reflexivity.
Qed.

Lemma dropwhile_app_stop (a : str) (x : N) (r : str) :
  p x = false -> dropwhile p (a ++ x :: r) = dropwhile p a ++ x :: r.
Proof.
  intros Hx. induction a as [|c a IH]; simpl.
  - now rewrite Hx.
  - destruct (p c); [exact IH | reflexivity].
Qed.

Lemma dropwhile_all (s : str) : forallb p s = true -> dropwhile p s = [].
Proof.
  induction s as [|c s IH]; simpl; [reflexivity|].
  destruct (p c); simpl; [exact IH | discriminate].
Qed.

Lemma dropwhile_head (s : str) (c : N) (r : str) :
  dropwhile p s = c :: r -> p c = false.
Proof.
  induction s as [|d s IH]; simpl; [discriminate|].
  destruct (p d) eqn:Hd; [exact IH|].
  intros E. injection E as -> _. exact Hd.
Qed.

Lemma rstrip_with_prefix (s : str) :
  exists b, s = rstrip_with p s ++ b /\ forallb p b = true.
Proof.
  unfold rstrip_with.
  destruct (dropwhile_suffix (rev s)) as [a [E F]].
  exists (rev a). split.
  - rewrite <- rev_app_distr, <- E. now rewrite rev_involutive.
  - rewrite forallb_forall in *. intros x Hx. apply F. now apply in_rev.
Qed.

Lemma rstrip_with_cons_keep (c : N) (s : str) :
  p c = false -> rstrip_with p (c :: s) = c :: rstrip_with p s.
Proof.
  intros Hc. unfold rstrip_with. simpl.
  rewrite dropwhile_app_stop by exact Hc.
  rewrite rev_app_distr. reflexivity.
Qed.

Lemma rstrip_with_app_stop (a : str) (x : N) (b : str) :
  p x = false ->
  rstrip_with p (a ++ x :: b) = a ++ x :: rstrip_with p b.
Proof.
  intros Hx. unfold rstrip_with.
  rewrite rev_app_distr. simpl. rewrite <- app_assoc. simpl.
  rewrite dropwhile_app_stop by exact Hx.
  rewrite rev_app_distr. simpl. rewrite rev_involutive.
  now rewrite <- app_assoc.
Qed.

Lemma rstrip_with_last (s r : str) (l : N) :
  rstrip_with p s = r ++ [l] -> p l = false.
Proof.
  unfold rstrip_with. intros E.
  apply (f_equal (@rev N)) in E.
  rewrite rev_involutive, rev_app_distr in E. simpl in E.
  exact (dropwhile_head _ _ _ E).
Qed.

Lemma rstrip_with_length (s : str) :
  (List.length (rstrip_with p s) <= List.length s)%nat.
Proof.
  destruct (rstrip_with_prefix s) as [b [E _]].
  rewrite E at 2. rewrite length_app. lia.
Qed.

End Dropwhile.

Lemma len_app (a b : str) : len (a ++ b) = (len a + len b)%Z.
Proof. unfold len. rewrite length_app. lia. Qed.

Lemma len_nonneg (a : str) : (0 <= len a)%Z.
Proof. unfold len. lia. Qed.

Lemma forallb_firstn {A} (f : A -> bool) (n : nat) (l : list A) :
  forallb f l = true -> forallb f (firstn n l) = true.
Proof.
  revert l. induction n as [|n IH]; intros [|x l]; simpl; try reflexivity.
  rewrite !andb_true_iff. intros [Hx Hl]. split; [exact Hx | now apply IH].
Qed.

Lemma forallb_app_true {A} (f : A -> bool) (a b : list A) :
  forallb f a = true -> forallb f b = true -> forallb f (a ++ b) = true.
Proof. intros Ha Hb. rewrite forallb_app, Ha, Hb. reflexivity. Qed.

Lemma slice_to_len (n : Z) (s : str) :
  (0 <= n)%Z -> (len (slice_to n s) <= n)%Z.
Proof.
  intros Hn. unfold slice_to.
  destruct (n <? 0)%Z eqn:E; [apply Z.ltb_lt in E; lia|].
  unfold len. rewrite length_firstn. lia.
Qed.

Lemma slice_to_forallb (f : N -> bool) (n : Z) (s : str) :
  forallb f s = true -> forallb f (slice_to n s) = true.
Proof. intros H. unfold slice_to. destruct (n <? 0)%Z; now apply forallb_firstn. Qed.

(** ** The document id *)

Ltac bool_to_prop :=
  repeat (rewrite ?orb_true_iff, ?andb_true_iff, ?negb_true_iff,
            ?orb_false_iff, ?andb_false_iff,
            ?N.leb_le, ?N.eqb_eq, ?N.leb_gt, ?N.eqb_neq, ?N.ltb_lt, ?N.ltb_ge in *).

Lemma safe_char_ascii (c : N) : is_safe_char c = true -> (c < 128)%N.
Proof.
  unfold is_safe_char, is_ascii_lower, is_ascii_upper, is_ascii_digit, in_range.
  bool_to_prop. lia.
Qed.

Lemma isalpha_safe (c : N) : isalpha c = true -> is_safe_char c = true.
Proof.
  unfold isalpha, is_safe_char. intros H.
  apply orb_true_iff in H. destruct H as [H|H]; rewrite H;
    repeat rewrite ?orb_true_r, ?orb_true_l; reflexivity.
Qed.

Lemma isalpha_not_stripped (c : N) :
  isalpha c = true -> char_in c (u "-_") = false.
Proof.
  unfold isalpha, is_ascii_upper, is_ascii_lower, in_range, char_in. simpl.
  intros H. bool_to_prop. lia.
Qed.

Lemma matches_all_safe (s : str) :
  matches_id_pattern s = true -> forallb is_safe_char s = true.
Proof.
  destruct s as [|c r]; simpl; [discriminate|].
  rewrite !andb_true_iff. intros [Hc Hr]. split; [now apply isalpha_safe | exact Hr].
Qed.

Lemma matches_app (a b : str) :
  matches_id_pattern a = true -> forallb is_safe_char b = true ->
  matches_id_pattern (a ++ b) = true.
Proof.
  destruct a as [|c r]; simpl; [discriminate|].
  rewrite !andb_true_iff. intros [Hc Hr] Hb. split; [exact Hc|].
  now apply forallb_app_true.
Qed.

(** The stages of [sanitize_id_part], in order. *)

Lemma sanitize_prefix_stage (s : str) :
  forallb is_safe_char s = true ->
  let s2 := match s with
            | c :: _ => if negb (isalpha c) then u "doc" ++ s else s
            | [] => s
            end in
  matches_id_pattern (match s2 with [] => u "unknown" | _ => s2 end) = true.
Proof.
  destruct s as [|c r]; [reflexivity|].
  intros Hs. cbv zeta. destruct (isalpha c) eqn:Hc; simpl negb; cbv iota.
  - simpl in *. rewrite Hc. apply andb_true_iff in Hs. now destruct Hs.
  - change (u "doc" ++ c :: r) with (100 :: 111 :: 99 :: c :: r)%N.
    simpl in *. exact Hs.
Qed.

Lemma sanitize_truncate_stage (s : str) (m : Z) :
  (1 <= m)%Z -> matches_id_pattern s = true ->
  let t := if (len s >? m)%Z then slice_to m s else s in
  matches_id_pattern t = true /\ (len t <= m)%Z.
Proof.
  intros Hm Hs. cbv zeta.
  destruct (len s >? m)%Z eqn:E.
  - split; [|apply slice_to_len; lia].
    unfold slice_to. destruct (m <? 0)%Z eqn:E'; [apply Z.ltb_lt in E'; lia|].
    destruct s as [|c r]; [discriminate|].
    destruct (Z.to_nat m) as [|k] eqn:Ek; [lia|].
    simpl in *. apply andb_true_iff in Hs. destruct Hs as [Hc Hr].
    rewrite Hc. simpl. now apply forallb_firstn.
  - split; [exact Hs|]. rewrite Z.gtb_ltb in E. apply Z.ltb_ge in E. exact E.
Qed.

Lemma sanitize_rstrip_stage (s : str) :
  matches_id_pattern s = true ->
  matches_id_pattern (rstrip (u "-_") s) = true /\
  (len (rstrip (u "-_") s) <= len s)%Z.
Proof.
  intros Hs. split.
  - destruct s as [|c r]; [discriminate|].
    simpl in Hs. apply andb_true_iff in Hs. destruct Hs as [Hc Hr].
    unfold rstrip. rewrite rstrip_with_cons_keep by now apply isalpha_not_stripped.
    simpl. rewrite Hc. simpl.
    destruct (rstrip_with_prefix (fun c => char_in c (u "-_")) r) as [b [E _]].
    rewrite E, forallb_app in Hr. apply andb_true_iff in Hr. now destruct Hr.
  - unfold len, rstrip.
    pose proof (rstrip_with_length (fun c => char_in c (u "-_")) s). lia.
Qed.

Lemma sanitize_id_part_ok (text : str) (m : Z) :
  (1 <= m)%Z ->
  matches_id_pattern (sanitize_id_part text m) = true /\
  (len (sanitize_id_part text m) <= m)%Z.
Proof.
  intros Hm. unfold sanitize_id_part. cbv zeta.
  set (s1 := filter is_safe_char text).
  assert (H1 : forallb is_safe_char s1 = true).
  { apply forallb_forall. intros x Hx. apply filter_In in Hx. now destruct Hx. }
  pose proof (@sanitize_prefix_stage s1 H1) as H3. cbv zeta in H3.
  set (s2 := match s1 with
             | c :: _ => if negb (isalpha c) then u "doc" ++ s1 else s1
             | [] => s1
             end) in *.
  set (s3 := match s2 with [] => u "unknown" | _ => s2 end) in *.
  destruct (@sanitize_truncate_stage s3 m Hm H3) as [H4 L4].
  cbv zeta in H4, L4.
  set (s4 := if (len s3 >? m)%Z then slice_to m s3 else s3) in *.
  destruct (@sanitize_rstrip_stage s4 H4) as [H5 L5].
  destruct (rstrip (u "-_") s4) as [|c r] eqn:E5; [discriminate|].
  split; [exact H5 | lia].
Qed.

Lemma digit_safe (n : N) : is_safe_char (48 + n mod 10)%N = true.
Proof.
  assert (H : (n mod 10 < 10)%N) by (apply N.mod_upper_bound; discriminate).
  revert H. generalize (n mod 10)%N. intros d H.
  unfold is_safe_char, is_ascii_digit, in_range. bool_to_prop. lia.
Qed.

Lemma digits_of_safe (fuel : nat) (n : N) (acc : str) :
  forallb is_safe_char acc = true ->
  forallb is_safe_char (digits_of fuel n acc) = true.
Proof.
  revert n acc. induction fuel as [|f IH]; intros n acc Hacc.
  - cbn [digits_of forallb]. now rewrite Hacc, digit_safe.
  - cbn [digits_of]. destruct (n / 10 =? 0)%N.
    + cbn [forallb]. now rewrite Hacc, digit_safe.
    + apply IH. cbn [forallb]. now rewrite Hacc, digit_safe.
Qed.

Lemma str_of_int_safe (z : Z) : forallb is_safe_char (str_of_int z) = true.
Proof.
  destruct z as [|q|q]; simpl.
  - reflexivity.
  - now apply digits_of_safe.
  - unfold str_of_N. now apply digits_of_safe.
Qed.

Lemma hex_digit_safe (n : N) : (n < 16)%N -> is_safe_char (MD5.hex_digit n) = true.
Proof.
  intros Hn. unfold MD5.hex_digit.
  unfold is_safe_char, is_ascii_lower, is_ascii_upper, is_ascii_digit, in_range.
  destruct (n <? 10)%N eqn:E; bool_to_prop; lia.
Qed.

Lemma bytes_le_bound (n : nat) (x : N) :
  Forall (fun b => (b < 256)%N) (MD5.bytes_le n x).
Proof.
  revert x. induction n as [|n IH]; intros x; simpl; constructor.
  - apply N.mod_upper_bound. discriminate.
  - apply IH.
Qed.

Lemma bytes_le_length (n : nat) (x : N) : List.length (MD5.bytes_le n x) = n.
Proof. revert x. induction n as [|n IH]; intros x; simpl; [|rewrite IH]; reflexivity. Qed.

Lemma hex_bytes_safe (bs : list N) :
  Forall (fun b => (b < 256)%N) bs ->
  forallb is_safe_char (flat_map MD5.hex_byte bs) = true.
Proof.
  induction 1 as [|b bs Hb _ IH]; [reflexivity|].
  simpl. rewrite IH, andb_true_r.
  rewrite !hex_digit_safe; [reflexivity | |].
  - apply N.mod_upper_bound. discriminate.
  - apply N.Div0.div_lt_upper_bound. exact Hb.
Qed.

Lemma hexdigest_safe (msg : list N) :
  forallb is_safe_char (MD5.hexdigest msg) = true.
Proof.
  unfold MD5.hexdigest, MD5.digest. apply hex_bytes_safe.
  repeat (apply Forall_app; split); apply bytes_le_bound.
Qed.

Lemma hexdigest_length (msg : list N) : List.length (MD5.hexdigest msg) = 32%nat.
Proof.
  unfold MD5.hexdigest, MD5.digest.
  set (st := MD5.blocks _ _ _).
  assert (L : forall bs, List.length (flat_map MD5.hex_byte bs) = (2 * List.length bs)%nat).
  { induction bs as [|b bs IH]; simpl; [reflexivity | rewrite IH; lia]. }
  rewrite L, !length_app, !bytes_le_length. reflexivity.
Qed.

Lemma encode_ascii (s : str) :
  Forall (fun c => (c < 128)%N) s -> encode s = s.
Proof.
  induction 1 as [|c s Hc _ IH]; [reflexivity|].
  unfold encode in *. simpl. rewrite IH. unfold encode_char.
  apply N.ltb_lt in Hc. change 0x80%N with 128%N. now rewrite Hc.
Qed.

Lemma digits_of_acc (fuel : nat) (n : N) (acc : str) :
  digits_of fuel n acc = digits_of fuel n [] ++ acc.
Proof.
  revert n acc. induction fuel as [|f IH]; intros n acc; cbn [digits_of].
  - reflexivity.
  - destruct (n / 10 =? 0)%N; [reflexivity|].
    rewrite IH. rewrite (IH _ [(48 + n mod 10)%N]).
    now rewrite <- app_assoc.
Qed.

Lemma digits_value_snoc (s : str) (d : N) :
  digits_value (s ++ [d]) = (10 * digits_value s + (d - 48))%N.
Proof. unfold digits_value. now rewrite fold_left_app. Qed.

Lemma digits_of_value (fuel : nat) (n : N) :
  (n < 2 ^ (N.of_nat fuel + 1))%N ->
  digits_value (digits_of fuel n []) = n.
Proof.
  assert (Hlast : forall m, (m < 10)%N -> digits_value [(48 + m mod 10)%N] = m).
  { intros m Hm. rewrite N.mod_small by exact Hm.
    unfold digits_value. cbn [fold_left]. lia. }
  revert n. induction fuel as [|f IH]; intros n Hn; cbn [digits_of].
  - apply Hlast. simpl in Hn. lia.
  - destruct (n / 10 =? 0)%N eqn:E.
    + apply Hlast. apply N.eqb_eq in E.
      apply N.div_small_iff in E; [exact E | discriminate].
    + rewrite digits_of_acc, digits_value_snoc, IH.
      * assert (D : n = (10 * (n / 10) + n mod 10)%N)
          by (apply N.div_mod; discriminate).
        revert D. generalize (n / 10)%N, (n mod 10)%N. intros q r D. lia.
      * apply N.Div0.div_lt_upper_bound.
        replace (N.of_nat (S f) + 1)%N with (N.succ (N.of_nat f + 1)) in Hn by lia.
        rewrite N.pow_succ_r' in Hn. lia.
Qed.

(** [str_of_N] renders the decimal digits of its argument. *)
Lemma str_of_N_value (n : N) : digits_value (str_of_N n) = n.
Proof.
  unfold str_of_N. apply digits_of_value. rewrite N2Nat.id.
  destruct n as [|q]; [reflexivity|].
  rewrite N.add_1_r. apply N.log2_spec. reflexivity.
Qed.

Lemma slice_to_matches (n : Z) (s : str) :
  (1 <= n)%Z -> matches_id_pattern s = true ->
  matches_id_pattern (slice_to n s) = true.
Proof.
  intros Hn Hs. unfold slice_to.
  destruct (n <? 0)%Z eqn:E; [apply Z.ltb_lt in E; lia|].
  destruct s as [|c r]; [discriminate|].
  destruct (Z.to_nat n) as [|k] eqn:Ek; [lia|].
  simpl in *. apply andb_true_iff in Hs. destruct Hs as [Hc Hr].
  rewrite Hc. simpl. now apply forallb_firstn.
Qed.

Lemma underscore_safe : forallb is_safe_char underscore = true.
Proof. reflexivity. Qed.

Lemma joined_id_matches (a b c : str) (ci : option Z) :
  matches_id_pattern a = true -> matches_id_pattern b = true ->
  matches_id_pattern c = true ->
  matches_id_pattern (joined_id a b c ci) = true.
Proof.
  intros Ha Hb Hc. apply matches_all_safe in Hb, Hc.
  destruct ci as [z|]; unfold joined_id; apply matches_app; try exact Ha;
    repeat (apply forallb_app_true);
    auto using underscore_safe, str_of_int_safe.
Qed.

Lemma hashed_id_matches (a b doc_id : str) (ci : option Z) :
  matches_id_pattern a = true -> matches_id_pattern b = true ->
  matches_id_pattern (hashed_id a b doc_id ci) = true.
Proof.
  intros Ha Hb.
  assert (Hb' : forallb is_safe_char (slice_to 10 b) = true).
  { apply slice_to_forallb. now apply matches_all_safe. }
  assert (Hh : forallb is_safe_char
                 (slice_to 8 (MD5.hexdigest (encode doc_id))) = true).
  { apply slice_to_forallb, hexdigest_safe. }
  destruct ci as [z|]; unfold hashed_id; cbv zeta; apply matches_app;
    try (apply slice_to_matches; [lia | exact Ha]);
    repeat (apply forallb_app_true);
    auto using underscore_safe, str_of_int_safe.
Qed.

(** The string [create_document_id] hashes is ASCII, so [encode] maps it to
    its own code points. *)
Lemma doc_id_ascii (site_id drive_id item_id : str) (chunk_index : option Z) :
  let doc_id := joined_id (sanitize_id_part site_id 20)
                  (sanitize_id_part drive_id 20)
                  (sanitize_id_part item_id 40) chunk_index in
  encode doc_id = doc_id.
Proof.
  cbv zeta. apply encode_ascii.
  destruct (sanitize_id_part_ok site_id 20 ltac:(lia)) as [Hs _].
  destruct (sanitize_id_part_ok drive_id 20 ltac:(lia)) as [Hd _].
  destruct (sanitize_id_part_ok item_id 40 ltac:(lia)) as [Hi _].
  pose proof (matches_all_safe _
                (joined_id_matches _ _ _ chunk_index Hs Hd Hi)) as H.
  apply Forall_forall. intros c Hc. apply safe_char_ascii.
  rewrite forallb_forall in H. now apply H.
Qed.

(** The alphabet half of the identifier invariant holds for every input,
    on both branches of the length check. *)
Lemma create_document_id_matches (site_id drive_id item_id : str)
    (chunk_index : option Z) :
  matches_id_pattern
    (create_document_id site_id drive_id item_id chunk_index) = true.
Proof.
  unfold create_document_id. cbv zeta.
  destruct (@sanitize_id_part_ok site_id 20 ltac:(lia)) as [Hs _].
  destruct (@sanitize_id_part_ok drive_id 20 ltac:(lia)) as [Hd _].
  destruct (@sanitize_id_part_ok item_id 40 ltac:(lia)) as [Hi _].
  destruct (len _ >? 1024)%Z.
  - now apply hashed_id_matches.
  - now apply joined_id_matches.
Qed.

(** The length half holds whenever the decimal rendering of the chunk index
    has at most 993 characters. *)
Lemma create_document_id_length (site_id drive_id item_id : str)
    (chunk_index : option Z) :
  (match chunk_index with
   | Some ci => len (str_of_int ci) <= 993
   | None => True
   end)%Z ->
  (len (create_document_id site_id drive_id item_id chunk_index) <= 1024)%Z.
Proof.
  intros Hci. unfold create_document_id. cbv zeta.
  destruct (len _ >? 1024)%Z eqn:E.
  - pose proof (@slice_to_len 10 (sanitize_id_part site_id 20) ltac:(lia)).
    pose proof (@slice_to_len 10 (sanitize_id_part drive_id 20) ltac:(lia)).
    pose proof (@slice_to_len 8 (MD5.hexdigest
      (encode (joined_id (sanitize_id_part site_id 20)
                 (sanitize_id_part drive_id 20)
                 (sanitize_id_part item_id 40) chunk_index))) ltac:(lia)).
    destruct chunk_index as [z|]; unfold hashed_id; cbv zeta;
      rewrite !len_app; change (len underscore) with 1%Z; lia.
  - rewrite Z.gtb_ltb in E. apply Z.ltb_ge in E. exact E.
Qed.

(** C10. Without a chunk index the identifier is the plain underscore-join
    of the three sanitized parts, at most 82 characters long: the
    hash-shortening branch is never taken. *)
Theorem create_document_id_plain_join (site_id drive_id item_id : str) :
  create_document_id site_id drive_id item_id None =
    sanitize_id_part site_id 20 ++ underscore ++
    sanitize_id_part drive_id 20 ++ underscore ++
    sanitize_id_part item_id 40 /\
  (len (joined_id (sanitize_id_part site_id 20) (sanitize_id_part drive_id 20)
          (sanitize_id_part item_id 40) None) <= 82)%Z /\
  (len (create_document_id site_id drive_id item_id None) <= 82)%Z.
Proof.
  destruct (@sanitize_id_part_ok site_id 20 ltac:(lia)) as [_ Ls].
  destruct (@sanitize_id_part_ok drive_id 20 ltac:(lia)) as [_ Ld].
  destruct (@sanitize_id_part_ok item_id 40 ltac:(lia)) as [_ Li].
  assert (L : (len (joined_id (sanitize_id_part site_id 20)
                      (sanitize_id_part drive_id 20)
                      (sanitize_id_part item_id 40) None) <= 82)%Z).
  { unfold joined_id. rewrite !len_app. change (len underscore) with 1%Z. lia. }
  assert (E : create_document_id site_id drive_id item_id None =
              joined_id (sanitize_id_part site_id 20)
                (sanitize_id_part drive_id 20)
                (sanitize_id_part item_id 40) None).
  { unfold create_document_id. cbv zeta.
    destruct (len _ >? 1024)%Z eqn:G; [|reflexivity].
    rewrite Z.gtb_ltb in G. apply Z.ltb_lt in G. lia. }
  split; [exact E|]. split; [exact L|]. rewrite E. exact L.
Qed.

(** C4, at a chunk index of 1101 digits: the shortened form still ends in
    the chunk index, so the identifier keeps 1121 characters, more than
    1024. (Its alphabet is as required, see [create_document_id_matches].) *)
Theorem create_document_id_overlong :
  len (create_document_id (u "site") (u "drive") (u "item")
         (Some (10 ^ 1100)%Z)) = 1121%Z /\
  (1121 >? 1024)%Z = true /\
  matches_id_pattern
    (create_document_id (u "site") (u "drive") (u "item")
       (Some (10 ^ 1100)%Z)) = true.
Proof. vm_compute. repeat split. Qed.

(** ** The chunker: construction *)

(** C1, as stated, fails: a chunk size of 0 with an overlap of 5 is
    accepted, and no error is returned. *)
Lemma TextChunker_init_accepts_invalid :
  (0 <= 0)%Z /\ (5 >= 0)%Z /\
  TextChunker_init 0 5 = inr (mkTextChunker 0 5) /\
  TextChunker_init 0 5 <> inl InvalidConfiguration.
Proof. repeat split; try lia. discriminate. Qed.

(** C1, amended. Construction never fails: every pair of arguments, valid
    or not, is stored unchanged. *)
Theorem TextChunker_init_total (size overlap : Z) :
  TextChunker_init size overlap = inr (mkTextChunker size overlap) /\
  (forall c, TextChunker_init size overlap = inr c ->
             chunk_size c = size /\ chunk_overlap c = overlap) /\
  (forall e, TextChunker_init size overlap <> inl e).
Proof.
  split; [reflexivity|]. split.
  - intros c E. injection E as <-. split; reflexivity.
  - intros e E. discriminate E.
Qed.

Lemma TextChunker_init_total_witness :
  TextChunker_init 1000 200 = inr (mkTextChunker 1000 200) /\
  chunk_size (mkTextChunker 0 5) = 0%Z /\
  chunk_overlap (mkTextChunker 0 5) = 5%Z.
Proof.
  split.
  - exact (proj1 (TextChunker_init_total 1000 200)).
  - exact (proj1 (proj2 (TextChunker_init_total 0 5)) (mkTextChunker 0 5) eq_refl).
Defined.

(** ** The chunker: overlap *)

(** With a positive overlap the carried text is the last [chunk_overlap]
    characters of the buffer, or the whole buffer when it is shorter. *)
Lemma overlap_text_positive (self : TextChunker) (current_chunk : str) :
  (0 < chunk_overlap self)%Z ->
  overlap_text self current_chunk =
  last_chars (Z.to_nat (chunk_overlap self)) current_chunk.
Proof.
  intros Hpos. unfold overlap_text, last_chars, slice_from, len.
  destruct (Z.of_nat (List.length current_chunk) >? chunk_overlap self)%Z eqn:E.
  - rewrite Z.gtb_ltb in E. apply Z.ltb_lt in E.
    destruct (- chunk_overlap self <? 0)%Z eqn:E'; [|apply Z.ltb_ge in E'; lia].
    f_equal. lia.
  - rewrite Z.gtb_ltb in E. apply Z.ltb_ge in E.
    replace (List.length current_chunk - Z.to_nat (chunk_overlap self))%nat
      with 0%nat by lia.
    reflexivity.
Qed.

(** With [chunk_overlap = 0] the slice [current_chunk[-0:]] is the whole
    buffer. *)
Lemma overlap_text_zero (size : Z) (current_chunk : str) :
  overlap_text (mkTextChunker size 0) current_chunk = current_chunk.
Proof.
  unfold overlap_text, slice_from. simpl.
  destruct (len current_chunk >? 0)%Z; reflexivity.
Qed.

(** At a flush the next buffer is the overlap, the unit and its
    separator. *)
Lemma add_unit_flush (self : TextChunker) (metadata : option dict)
    (st : loop_state) (unit sep : str) :
  (len (st_current_chunk st) + len unit > chunk_size self)%Z ->
  st_current_chunk st <> [] ->
  st_current_chunk (add_unit self metadata st (unit, sep)) =
  (overlap_text self (st_current_chunk st) ++ unit) ++ sep.
Proof.
  destruct st as [chunks cur start idx]. simpl. intros Hbig Hne.
  destruct (len cur + len unit <=? chunk_size self)%Z eqn:E.
  - apply Z.leb_le in E. lia.
  - destruct cur; [congruence | reflexivity].
Qed.

Lemma add_sentence_unit (self : TextChunker) (metadata : option dict)
    (st : loop_state) (sentence : str) :
  add_sentence self metadata st sentence =
  add_unit self metadata st (sentence, u " ").
Proof. reflexivity. Qed.

Lemma add_paragraph_units (self : TextChunker) (metadata : option dict)
    (st : loop_state) (para : str) :
  add_paragraph self metadata st para =
  fold_left (add_unit self metadata) (units_of_paragraph self para) st.
Proof.
  unfold add_paragraph, units_of_paragraph.
  destruct (len para >? chunk_size self)%Z.
  - generalize (_split_into_sentences para) as l. intros l. revert st.
    induction l as [|s l IH]; intros st; [reflexivity|].
    simpl. rewrite add_sentence_unit. apply IH.
  - reflexivity.
Qed.

Lemma fold_paragraphs_units (self : TextChunker) (metadata : option dict)
    (paragraphs : list str) (st : loop_state) :
  fold_left (add_paragraph self metadata) paragraphs st =
  fold_left (add_unit self metadata)
    (flat_map (units_of_paragraph self) paragraphs) st.
Proof.
  revert st. induction paragraphs as [|p ps IH]; intros st; [reflexivity|].
  simpl. rewrite fold_left_app, IH, add_paragraph_units. reflexivity.
Qed.

(** C2, at [chunk_size = 10], [chunk_overlap = 0]: the flush before the
    second paragraph carries the whole ten-character buffer, not the empty
    string, and the second chunk repeats the first. *)
Theorem overlap_zero_carries_whole_buffer :
  let self := mkTextChunker 10 0 in
  let buffer := u "aaaaaaaa" ++ blank_line in
  let input := u "aaaaaaaa" ++ blank_line ++ u "bbbbbbbb" in
  overlap_text self buffer = buffer /\
  last_chars 0 buffer = [] /\
  map text (split_text self input None) =
    [u "aaaaaaaa"; u "aaaaaaaa" ++ blank_line ++ u "bbbbbbbb"].
Proof. vm_compute. repeat split. Qed.

(** ** The chunker: chunk indices *)

Lemma indexed_initial : indexed initial_state.
Proof. split; reflexivity. Qed.

Lemma indexed_emit (chunks : list TextChunk) (idx : Z) (c : TextChunk)
    (cur : str) (start : Z) :
  indexed (mkState chunks cur start idx) ->
  chunk_index c = idx ->
  forall cur' start', indexed (mkState (chunks ++ [c]) cur' start' (idx + 1)).
Proof.
  intros [Hmap Hidx] Hc cur' start'. simpl in *. split; simpl.
  - rewrite map_app, length_app, seq_app, map_app, Hmap. simpl.
    rewrite Hc, Hidx. reflexivity.
  - rewrite length_app. simpl. lia.
Qed.

Lemma indexed_buffer (chunks : list TextChunk) (idx : Z) (cur : str) (start : Z) :
  indexed (mkState chunks cur start idx) ->
  forall cur' start', indexed (mkState chunks cur' start' idx).
Proof. intros H cur' start'. exact H. Qed.

Lemma add_unit_indexed (self : TextChunker) (metadata : option dict)
    (st : loop_state) (un : unit_) :
  indexed st -> indexed (add_unit self metadata st un).
Proof.
  destruct st as [chunks cur start idx], un as [unit sep]. intros H.
  unfold add_unit.
  destruct (len cur + len unit <=? chunk_size self)%Z.
  - eapply indexed_buffer, H.
  - destruct (nonempty cur).
    + eapply indexed_emit; [exact H | reflexivity].
    + eapply indexed_buffer, H.
Qed.

Lemma fold_units_indexed (self : TextChunker) (metadata : option dict)
    (us : list unit_) (st : loop_state) :
  indexed st -> indexed (fold_left (add_unit self metadata) us st).
Proof.
  revert st. induction us as [|un us IH]; intros st H; [exact H|].
  simpl. apply IH. now apply add_unit_indexed.
Qed.

Lemma finish_indexed (metadata : option dict) (st : loop_state) :
  indexed st ->
  map chunk_index (finish metadata st) =
  map Z.of_nat (seq 0 (List.length (finish metadata st))).
Proof.
  destruct st as [chunks cur start idx]. intros H. unfold finish.
  destruct (nonempty (strip cur)).
  - refine (proj1 (@indexed_emit chunks idx _ cur start H _ cur start)).
    reflexivity.
  - exact (proj1 H).
Qed.

Lemma strip_whitespace (s : str) : forallb isspace s = true -> strip s = [].
Proof.
  intros H. unfold strip, lstrip_with. rewrite dropwhile_all by exact H.
  reflexivity.
Qed.

(** C7. The chunk indices of the returned sequence are [0, 1, ..., n-1] in
    order, and an input that is empty or all whitespace gives the empty
    sequence. *)
Theorem split_text_indices_gapless (self : TextChunker) (input : str)
    (metadata : option dict) :
  map chunk_index (split_text self input metadata) =
    map Z.of_nat (seq 0 (List.length (split_text self input metadata))) /\
  (forallb isspace input = true -> split_text self input metadata = []).
Proof.
  split.
  - unfold split_text.
    destruct (negb (nonempty input) || negb (nonempty (strip input)));
      [reflexivity|].
    apply finish_indexed. rewrite fold_paragraphs_units.
    apply fold_units_indexed, indexed_initial.
  - intros E. unfold split_text. rewrite (strip_whitespace _ E). simpl.
    now rewrite orb_true_r.
Qed.

Lemma split_text_indices_gapless_witness :
  split_text (mkTextChunker 1000 200) [] None = [] /\
  split_text (mkTextChunker 1000 200) (u "  " ++ blank_line ++ u " ") None = [] /\
  map chunk_index
    (split_text (mkTextChunker 10 3) (u "Hello world. Foo bar baz.") None) =
  [0; 1]%Z.
Proof.
  split; [|split].
  - apply (proj2 (split_text_indices_gapless (mkTextChunker 1000 200) [] None)).
    reflexivity.
  - apply (proj2 (split_text_indices_gapless (mkTextChunker 1000 200)
                    (u "  " ++ blank_line ++ u " ") None)).
    reflexivity.
  - rewrite (proj1 (split_text_indices_gapless (mkTextChunker 10 3)
                      (u "Hello world. Foo bar baz.") None)).
    reflexivity.
Defined.

(** ** The chunker: units are placed whole *)

Lemma strip_trimmed (s : str) : strip s <> [] -> trimmed (strip s).
Proof.
  unfold strip, lstrip_with. intros Hne.
  set (l := dropwhile isspace s) in *.
  destruct (rstrip_with_prefix isspace l) as [b [E _]].
  split.
  - destruct (rstrip_with isspace l) as [|c r] eqn:R; [congruence|].
    exists c, r. split; [reflexivity|].
    simpl in E. exact (dropwhile_head isspace s c (r ++ b) E).
  - destruct (exists_last Hne) as [r [x R]].
    exists r, x. split; [exact R|].
    exact (rstrip_with_last isspace l r x R).
Qed.

Lemma trimmed_nonempty (s : str) : trimmed s -> s <> [].
Proof. intros [[c [r [E _]]] _]. rewrite E. discriminate. Qed.

Lemma trimmed_full_stop (s : str) :
  trimmed s -> trimmed (s ++ [ideographic_full_stop]).
Proof.
  intros [[c [r [E Hc]]] _]. split.
  - exists c, (r ++ [ideographic_full_stop]). split; [now rewrite E | exact Hc].
  - exists s, ideographic_full_stop. split; reflexivity.
Qed.

Lemma strip_keeps_trimmed (a m b : str) :
  trimmed m ->
  strip (a ++ m ++ b) = dropwhile isspace a ++ m ++ rstrip_with isspace b.
Proof.
  intros [[c [r [E Hc]]] [r' [l [E' Hl]]]].
  unfold strip, lstrip_with.
  assert (H1 : dropwhile isspace (a ++ m ++ b) = dropwhile isspace a ++ m ++ b).
  { rewrite E. simpl. now apply dropwhile_app_stop. }
  rewrite H1, E'.
  replace (dropwhile isspace a ++ (r' ++ [l]) ++ b)
    with ((dropwhile isspace a ++ r') ++ l :: b)
    by (now rewrite <- !app_assoc).
  rewrite rstrip_with_app_stop by exact Hl.
  now rewrite <- !app_assoc.
Qed.

Lemma strip_occurs (a m b : str) : trimmed m -> occurs_in m (strip (a ++ m ++ b)).
Proof.
  intros H. rewrite strip_keeps_trimmed by exact H.
  now exists (dropwhile isspace a), (rstrip_with isspace b).
Qed.

Lemma paragraphs_trimmed (input : str) :
  Forall trimmed (_split_into_paragraphs input).
Proof.
  unfold _split_into_paragraphs. apply Forall_forall. intros p Hp.
  apply in_map_iff in Hp. destruct Hp as [q [<- Hq]].
  apply filter_In in Hq. destruct Hq as [_ Hq].
  apply strip_trimmed. destruct (strip q); [discriminate | discriminate].
Qed.

Lemma sentences_trimmed (para : str) :
  Forall trimmed (_split_into_sentences para).
Proof.
  unfold _split_into_sentences. apply Forall_forall. intros p Hp.
  apply in_map_iff in Hp. destruct Hp as [q [<- Hq]].
  apply filter_In in Hq. destruct Hq as [_ Hq].
  apply trimmed_full_stop, strip_trimmed.
  destruct (strip q); [discriminate | discriminate].
Qed.

Lemma units_of_paragraph_trimmed (self : TextChunker) (para : str) :
  trimmed para ->
  Forall (fun un => trimmed (fst un)) (units_of_paragraph self para).
Proof.
  intros Hp. unfold units_of_paragraph.
  destruct (len para >? chunk_size self)%Z.
  - apply Forall_forall. intros un Hun.
    apply in_map_iff in Hun. destruct Hun as [s [<- Hs]]. simpl.
    exact (proj1 (Forall_forall _ _) (sentences_trimmed para) s Hs).
  - constructor; [exact Hp | constructor].
Qed.

Lemma units_trimmed (self : TextChunker) (input : str) :
  Forall (fun un => trimmed (fst un)) (units self input).
Proof.
  unfold units.
  pose proof (paragraphs_trimmed input) as H.
  induction H as [|p ps Hp _ IH]; simpl; [constructor|].
  apply Forall_app. split; [now apply units_of_paragraph_trimmed | exact IH].
Qed.

Lemma render_app (g h : list unit_) : render (g ++ h) = render g ++ render h.
Proof. unfold render. apply flat_map_app. Qed.

Lemma render_single (un : unit_) : render [un] = fst un ++ snd un.
Proof. unfold render. simpl. apply app_nil_r. Qed.

Lemma render_occurs (g : list unit_) (un : unit_) :
  In un g -> exists x y, render g = x ++ fst un ++ y.
Proof.
  intros H. apply in_split in H. destruct H as [g1 [g2 ->]].
  exists (render g1), (snd un ++ render g2).
  change (g1 ++ un :: g2) with (g1 ++ [un] ++ g2).
  rewrite !render_app, render_single. now rewrite <- !app_assoc.
Qed.

Lemma render_len (g : list unit_) (un : unit_) :
  In un g -> (len (fst un) <= len (render g))%Z.
Proof.
  intros H. destruct (render_occurs g un H) as [x [y ->]].
  rewrite !len_app. pose proof (len_nonneg x). pose proof (len_nonneg y). lia.
Qed.

Lemma render_nonempty (g : list unit_) :
  g <> [] -> Forall (fun un => trimmed (fst un)) g -> render g <> [].
Proof.
  destruct g as [|[unit sep] g]; [congruence|]. intros _ H.
  apply Forall_inv in H. apply trimmed_nonempty in H. simpl in H.
  unfold render. simpl. destruct unit; [congruence | simpl; discriminate].
Qed.

(** The chunk emitted from a buffer [o ++ render g] holds [g]. *)
Lemma emit_holds (self : TextChunker) (o : str) (g : list unit_)
    (idx start end_ : Z) (metadata : option dict) :
  g <> [] ->
  Forall (fun un => trimmed (fst un)) g ->
  (forall un, In un g -> (len (fst un) > chunk_size self)%Z -> g = [un]) ->
  chunk_holds self
    (_create_chunk (strip (o ++ render g)) idx start end_ metadata) g.
Proof.
  intros Hne Htrim Hbig. unfold chunk_holds. simpl.
  split; [exact Hne|]. split; [now exists o|]. split; [|exact Hbig].
  intros un Hun.
  destruct (render_occurs g un Hun) as [x [y E]].
  rewrite E, app_assoc.
  apply strip_occurs.
  exact (proj1 (Forall_forall _ _) Htrim un Hun).
Qed.

Lemma layout_initial (self : TextChunker) : layout self [] initial_state.
Proof.
  exists [], [], []. simpl.
  repeat split; try constructor; auto.
  intros un [].
Qed.

Lemma add_unit_layout (self : TextChunker) (metadata : option dict)
    (us : list unit_) (st : loop_state) (un : unit_) :
  layout self us st -> trimmed (fst un) ->
  layout self (us ++ [un]) (add_unit self metadata st un).
Proof.
  destruct st as [chunks cur start idx], un as [unit sep].
  intros [gs [g [o [Hch [Hus [Hcur [Hg [Htrim Hbig]]]]]]]] Hun.
  simpl in Hch, Hcur, Hg, Hun. unfold add_unit.
  destruct (len cur + len unit <=? chunk_size self)%Z eqn:Efit.
  - (* the unit fits: it joins the group being filled *)
    apply Z.leb_le in Efit.
    exists gs, (g ++ [(unit, sep)]), o. simpl.
    split; [exact Hch|]. split; [now rewrite app_assoc, Hus|].
    split; [rewrite Hcur, render_app, render_single; cbn [fst snd];
            now rewrite <- app_assoc|].
    split; [right; now destruct g|].
    split; [apply Forall_app; split; [exact Htrim | constructor; [exact Hun | constructor]]|].
    intros un' Hin Hlen. exfalso.
    apply in_app_or in Hin. destruct Hin as [Hin|[<-|[]]].
    + pose proof (render_len g un' Hin) as L.
      rewrite Hcur, len_app in Efit.
      pose proof (len_nonneg o). pose proof (len_nonneg unit). lia.
    + simpl in Hlen. pose proof (len_nonneg cur). lia.
  - destruct cur as [|c cur'] eqn:Ecur; simpl nonempty; cbv iota.
    + (* the buffer is empty: the unit starts the first group *)
      destruct Hg as [[-> _]|Hne].
      * exists gs, [(unit, sep)], []. simpl.
        split; [exact Hch|]. split; [now rewrite <- Hus, app_nil_r|].
        split; [now rewrite app_nil_r|].
        split; [right; discriminate|].
        split; [constructor; [exact Hun | constructor]|].
        intros un' [<-|[]] _. reflexivity.
      * exfalso. apply (render_nonempty g Hne Htrim).
        destruct o; [simpl in Hcur; now rewrite <- Hcur | discriminate].
    + (* flush: the buffer is emitted and the unit starts a new group *)
      assert (Hne : g <> []).
      { destruct Hg as [[_ Hnil]|Hne]; [discriminate | exact Hne]. }
      exists (gs ++ [g]), [(unit, sep)], (overlap_text self (c :: cur')). simpl.
      split.
      { apply Forall2_app; [exact Hch|]. constructor; [|constructor].
        rewrite Hcur. now apply emit_holds. }
      split; [now rewrite concat_app, <- Hus; simpl; rewrite app_nil_r|].
      split; [now rewrite app_nil_r, app_assoc|].
      split; [right; discriminate|].
      split; [constructor; [exact Hun | constructor]|].
      intros un' [<-|[]] _. reflexivity.
Qed.

Lemma fold_units_layout (self : TextChunker) (metadata : option dict)
    (us done : list unit_) (st : loop_state) :
  layout self done st -> Forall (fun un => trimmed (fst un)) us ->
  layout self (done ++ us) (fold_left (add_unit self metadata) us st).
Proof.
  revert done st. induction us as [|un us IH]; intros done st H Hus.
  - now rewrite app_nil_r.
  - simpl. replace (done ++ un :: us) with ((done ++ [un]) ++ us)
      by now rewrite <- app_assoc.
    apply IH; [|now inversion Hus].
    apply add_unit_layout; [exact H | now inversion Hus].
Qed.

Lemma strip_group_nonempty (o : str) (g : list unit_) :
  g <> [] -> Forall (fun un => trimmed (fst un)) g ->
  nonempty (strip (o ++ render g)) = true.
Proof.
  destruct g as [|[unit sep] g']; [congruence|]. intros _ H.
  apply Forall_inv in H. simpl in H.
  change (render ((unit, sep) :: g')) with ((unit ++ sep) ++ render g').
  rewrite <- app_assoc, strip_keeps_trimmed by exact H.
  destruct H as [[c [r [-> _]]] _].
  destruct (dropwhile isspace o); reflexivity.
Qed.

Lemma finish_layout (self : TextChunker) (metadata : option dict)
    (us : list unit_) (st : loop_state) :
  layout self us st ->
  exists groups,
    List.concat groups = us /\
    Forall2 (chunk_holds self) (finish metadata st) groups.
Proof.
  destruct st as [chunks cur start idx].
  intros [gs [g [o [Hch [Hus [Hcur [Hg [Htrim Hbig]]]]]]]].
  simpl in Hch, Hcur, Hg. unfold finish.
  destruct Hg as [[-> ->]|Hne].
  - exists gs. simpl. split; [now rewrite <- Hus, app_nil_r | exact Hch].
  - rewrite Hcur, strip_group_nonempty by assumption.
    exists (gs ++ [g]). split.
    + rewrite concat_app. simpl. now rewrite app_nil_r.
    + apply Forall2_app; [exact Hch|]. constructor; [|constructor].
      now apply emit_holds.
Qed.

Lemma strip_empty_whitespace (s : str) : strip s = [] -> forallb isspace s = true.
Proof.
  unfold strip, lstrip_with. intros E.
  destruct (dropwhile_suffix isspace s) as [a [Ea Fa]].
  destruct (rstrip_with_prefix isspace (dropwhile isspace s)) as [b [Eb Fb]].
  rewrite E in Eb. simpl in Eb. rewrite Ea, Eb.
  now apply forallb_app_true.
Qed.

Lemma forallb_rev (f : N -> bool) (s : str) :
  forallb f s = true -> forallb f (rev s) = true.
Proof.
  rewrite !forallb_forall. intros H x Hx. apply H. now apply in_rev.
Qed.

(** Every piece [re.split] returns is made of characters of the input. *)
Lemma re_split_blank_lines_chars (f : N -> bool) (s : str) :
  forallb f s = true ->
  forall skip piece, forallb f piece = true ->
  Forall (fun q => forallb f q = true) (re_split_blank_lines s skip piece).
Proof.
  induction s as [|c s IH]; intros Hs skip piece Hp; simpl.
  - constructor; [now apply forallb_rev | constructor].
  - simpl in Hs. apply andb_true_iff in Hs. destruct Hs as [Hc Hs].
    assert (Hcp : forallb f (c :: piece) = true) by (simpl; now rewrite Hc, Hp).
    destruct skip as [|k]; [|now apply IH].
    destruct (N.eqb c newline); [|now apply IH].
    destruct (blank_tail s 0 None); [|now apply IH].
    constructor; [now apply forallb_rev | now apply IH].
Qed.

Lemma blank_no_paragraphs (input : str) :
  strip input = [] -> _split_into_paragraphs input = [].
Proof.
  intros E. apply strip_empty_whitespace in E.
  unfold _split_into_paragraphs.
  pose proof (re_split_blank_lines_chars isspace input E 0 [] eq_refl) as H.
  induction H as [|q qs Hq _ IH]; [reflexivity|].
  simpl. rewrite (strip_whitespace q Hq). simpl. exact IH.
Qed.

Lemma prefix_eqb_spec (p s : str) :
  prefix_eqb p s = true <-> exists b, s = p ++ b.
Proof.
  revert s. induction p as [|x p IH]; intros s; simpl.
  - split; [intros _; now exists s | reflexivity].
  - destruct s as [|y s].
    + split; [discriminate | intros [b E]; discriminate].
    + rewrite andb_true_iff, N.eqb_eq, IH. split.
      * intros [-> [b ->]]. now exists b.
      * intros [b E]. injection E as -> ->. split; [reflexivity | now exists b].
Qed.

(** [is_substring] decides [occurs_in]. *)
Lemma is_substring_spec (p s : str) :
  is_substring p s = true <-> occurs_in p s.
Proof.
  unfold occurs_in. induction s as [|y s IH]; simpl.
  - rewrite orb_false_r, prefix_eqb_spec. split.
    + intros [b E]. now exists [], b.
    + intros [a [b E]]. destruct a; [now exists b|discriminate].
  - rewrite orb_true_iff, prefix_eqb_spec, IH. split.
    + intros [[b E]|[a [b E]]].
      * now exists [], b.
      * exists (y :: a), b. now rewrite E.
    + intros [[|x a] [b E]].
      * left. now exists b.
      * right. injection E as -> ->. now exists a, b.
Qed.

(** C5, as stated, fails: a 25-character paragraph under [chunk_size = 10]
    is cut at its sentence ends and re-terminated, so no chunk holds it
    verbatim. *)
Lemma oversized_paragraph_is_split :
  let self := mkTextChunker 10 3 in
  let para := u "Hello world. Foo bar baz." in
  _split_into_paragraphs para = [para] /\
  (len para >? chunk_size self)%Z = true /\
  map text (split_text self para None) =
    [u "Hello world" ++ [ideographic_full_stop];
     u "d" ++ [ideographic_full_stop] ++ u " Foo bar baz" ++
       [ideographic_full_stop]] /\
  existsb (fun c => is_substring para (text c)) (split_text self para None)
    = false.
Proof. vm_compute. repeat split. Qed.

(** C5, amended. The units [split_text] appends (each paragraph of at most
    [chunk_size] characters, and each sentence of a longer paragraph as the
    sentence splitter returns it) fall into consecutive groups, one per
    returned chunk. A chunk is the trimmed buffer that holds an overlap
    prefix and then the units of its group, so every unit occurs whole in
    its chunk, and a unit longer than [chunk_size] is the only unit of its
    group. *)
Theorem split_text_places_units_whole (self : TextChunker) (input : str)
    (metadata : option dict) :
  (forall para, In para (_split_into_paragraphs input) ->
     if (len para >? chunk_size self)%Z
     then forall sentence, In sentence (_split_into_sentences para) ->
            In (sentence, u " ") (units self input)
     else In (para, blank_line) (units self input)) /\
  exists groups,
    List.concat groups = units self input /\
    Forall2 (chunk_holds self) (split_text self input metadata) groups.
Proof.
  split.
  - intros para Hp. unfold units.
    destruct (len para >? chunk_size self)%Z eqn:E.
    + intros s Hs. apply in_flat_map. exists para. split; [exact Hp|].
      unfold units_of_paragraph. rewrite E.
      apply in_map_iff. now exists s.
    + apply in_flat_map. exists para. split; [exact Hp|].
      unfold units_of_paragraph. rewrite E. now left.
  - unfold split_text.
    destruct (negb (nonempty input) || negb (nonempty (strip input))) eqn:B.
    + exists []. split; [|constructor].
      unfold units. rewrite blank_no_paragraphs; [reflexivity|].
      destruct input as [|c s]; [reflexivity|].
      simpl in B. destruct (strip (c :: s)); [reflexivity | discriminate].
    + rewrite fold_paragraphs_units.
      apply finish_layout.
      apply (fold_units_layout self metadata (units self input) [] initial_state).
      * apply layout_initial.
      * apply units_trimmed.
Qed.

Lemma split_text_places_units_whole_witness :
  let self := mkTextChunker 10 3 in
  let input := u "Hello world. Foo bar baz." in
  In (u "Hello world" ++ [ideographic_full_stop], u " ") (units self input) /\
  exists groups,
    List.concat groups = units self input /\
    Forall2 (chunk_holds self) (split_text self input None) groups.
Proof.
  cbv zeta. split.
  - apply (proj1 (split_text_places_units_whole (mkTextChunker 10 3)
                    (u "Hello world. Foo bar baz.") None)
             (u "Hello world. Foo bar baz.")).
    + left. reflexivity.
    + left. reflexivity.
  - exact (proj2 (split_text_places_units_whole (mkTextChunker 10 3)
                    (u "Hello world. Foo bar baz.") None)).
Defined.

(** ** The ACL extractor *)

Lemma str_eqb_refl (s : str) : str_eqb s s = true.
Proof. induction s as [|c s IH]; simpl; [reflexivity|]. now rewrite N.eqb_refl. Qed.

Lemma py_eqb_refl (x : value) : hashable x = true -> py_eqb x x = true.
Proof.
  destruct x; simpl; try discriminate; intros _.
  - reflexivity.
  - apply Bool.eqb_reflx.
  - apply Z.eqb_refl.
  - apply str_eqb_refl.
Qed.

Lemma existsb_py_eqb_self (x : value) (seen : list value) :
  hashable x = true -> In x seen -> existsb (py_eqb x) seen = true.
Proof.
  intros Hx Hin. apply existsb_exists. exists x. split; [exact Hin|].
  now apply py_eqb_refl.
Qed.

Lemma set_insert_all_nodup (xs : list value) :
  forallb hashable xs = true ->
  forall seen, NoDup seen -> NoDup (set_insert_all xs seen).
Proof.
  induction xs as [|x xs IH]; intros Hxs seen Hseen; simpl.
  - now apply NoDup_rev.
  - simpl in Hxs. apply andb_true_iff in Hxs. destruct Hxs as [Hx Hxs].
    destruct (existsb (py_eqb x) seen) eqn:E; [now apply IH|].
    apply IH; [exact Hxs|]. constructor; [|exact Hseen].
    intros Hin. rewrite (existsb_py_eqb_self x seen Hx Hin) in E. discriminate.
Qed.

Lemma set_insert_all_sound (xs seen : list value) (x : value) :
  In x (set_insert_all xs seen) -> In x xs \/ In x seen.
Proof.
  revert seen. induction xs as [|y xs IH]; intros seen; simpl.
  - intros H. right. now apply in_rev.
  - destruct (existsb (py_eqb y) seen); intros H; apply IH in H.
    + tauto.
    + simpl in H. tauto.
Qed.

Lemma set_insert_all_keeps (xs seen : list value) (x : value) :
  In x seen -> In x (set_insert_all xs seen).
Proof.
  revert seen. induction xs as [|y xs IH]; intros seen H; simpl.
  - now apply in_rev in H.
  - destruct (existsb (py_eqb y) seen); apply IH; [exact H | now right].
Qed.

Lemma set_insert_all_complete (xs seen : list value) (x : value) :
  forallb hashable xs = true -> In x xs ->
  existsb (py_eqb x) (set_insert_all xs seen) = true.
Proof.
  revert seen. induction xs as [|y xs IH]; intros seen Hxs Hin; [destruct Hin|].
  simpl in Hxs. apply andb_true_iff in Hxs. destruct Hxs as [Hy Hxs].
  simpl. destruct Hin as [->|Hin].
  - destruct (existsb (py_eqb x) seen) eqn:E.
    + apply existsb_exists in E. destruct E as [z [Hz Hxz]].
      apply existsb_exists. exists z. split; [|exact Hxz].
      now apply set_insert_all_keeps.
    + apply existsb_py_eqb_self; [exact Hy|].
      apply set_insert_all_keeps. now left.
  - destruct (existsb (py_eqb y) seen); now apply IH.
Qed.

Lemma py_list_set_inv (xs ys : list value) :
  py_list_set xs = inr ys ->
  forallb hashable xs = true /\ ys = set_insert_all xs [].
Proof.
  unfold py_list_set. destruct (forallb hashable xs); [|discriminate].
  intros E. injection E as <-. split; reflexivity.
Qed.

(** C9. Whatever [extract_acl_from_permissions] returns holds no identity
    twice: both lists are duplicate-free, every returned identity was
    collected from the permissions, and every collected identity is
    represented in the result. *)
Theorem extract_acl_deduplicates (permissions : value) (users groups : list value) :
  extract_acl_from_permissions permissions = inr (users, groups) ->
  NoDup users /\ NoDup groups /\
  exists user_ids group_ids,
    collected_ids permissions = inr (user_ids, group_ids) /\
    (forall x, In x users -> In x user_ids) /\
    (forall x, In x groups -> In x group_ids) /\
    (forall x, In x user_ids -> existsb (py_eqb x) users = true) /\
    (forall x, In x group_ids -> existsb (py_eqb x) groups = true).
Proof.
  unfold extract_acl_from_permissions.
  destruct (collected_ids permissions) as [e|[user_ids group_ids]];
    [discriminate|]. simpl.
  destruct (py_list_set user_ids) as [e|us] eqn:Eu; [discriminate|]. simpl.
  destruct (py_list_set group_ids) as [e|gs] eqn:Eg; [discriminate|]. simpl.
  intros E. injection E as <- <-.
  apply py_list_set_inv in Eu, Eg.
  destruct Eu as [Hu ->], Eg as [Hg ->].
  split; [apply set_insert_all_nodup; [exact Hu | constructor]|].
  split; [apply set_insert_all_nodup; [exact Hg | constructor]|].
  exists user_ids, group_ids. split; [reflexivity|].
  repeat split.
  - intros x H. apply set_insert_all_sound in H. destruct H as [H|[]]. exact H.
  - intros x H. apply set_insert_all_sound in H. destruct H as [H|[]]. exact H.
  - intros x H. now apply set_insert_all_complete.
  - intros x H. now apply set_insert_all_complete.
Qed.

(** Two records that grant the same user give one user id. *)
Lemma extract_acl_deduplicates_witness :
  extract_acl_from_permissions
    (VList [grants_user "grantedToV2" "u1"; grants_user "grantedTo" "u1"]) =
    inr ([VStr (u "u1")], []) /\
  collected_ids
    (VList [grants_user "grantedToV2" "u1"; grants_user "grantedTo" "u1"]) =
    inr ([VStr (u "u1"); VStr (u "u1")], []) /\
  NoDup [VStr (u "u1")] /\
  List.length [VStr (u "u1")] = 1%nat.
Proof.
  split; [reflexivity|]. split; [reflexivity|]. split; [|reflexivity].
  exact (proj1 (extract_acl_deduplicates
                  (VList [grants_user "grantedToV2" "u1";
                          grants_user "grantedTo" "u1"])
                  [VStr (u "u1")] [] eq_refl)).
Defined.

Lemma py_get_field (d : dict) (k : str) :
  py_get (VDict d) k VNone = inr (field d k).
Proof. reflexivity. Qed.

Lemma collect_id_ok (d : dict) (key : str) (ids : list value) :
  ok_principal (field d key) = true ->
  forallb hashable ids = true ->
  exists ids', collect_id (VDict d) key ids = inr ids' /\
               forallb hashable ids' = true.
Proof.
  intros Hok Hids. unfold collect_id. rewrite py_get_field.
  cbn [bind].
  destruct (field d key) as [| b | z | s | items | d'] eqn:F;
    cbn [ok_principal] in Hok;
    try (apply negb_true_iff in Hok; rewrite Hok; now exists ids).
  destruct (truthy (VDict d')); [|now exists ids].
  cbn [py_contains py_getitem bind ret].
  destruct (dict_get (u "id") d') as [i|] eqn:G; cbn [bind ret].
  - exists (ids ++ [i]). split; [reflexivity|].
    apply forallb_app_true; [exact Hids|]. cbn [forallb]. now rewrite Hok.
  - now exists ids.
Qed.

Lemma collect_ok (acc : acl) (who : value) :
  ok_identity who = true -> hashable_acl acc ->
  exists acc', collect acc who = inr acc' /\ hashable_acl acc'.
Proof.
  destruct who as [| | | | |d]; try discriminate.
  destruct acc as [user_ids group_ids]. simpl.
  intros Hok [Hu Hg]. apply andb_true_iff in Hok. destruct Hok as [Hok1 Hok2].
  simpl in Hu, Hg.
  destruct (collect_id_ok d (u "user") user_ids Hok1 Hu) as [us [Eu Hus]].
  destruct (collect_id_ok d (u "group") group_ids Hok2 Hg) as [gs [Eg Hgs]].
  rewrite Eu. simpl. rewrite Eg. simpl.
  exists (us, gs). split; [reflexivity | split; assumption].
Qed.

Lemma foldM_ok {A B} (f : B -> A -> result B) (okA : A -> bool) (okB : B -> Prop) :
  (forall b a, okA a = true -> okB b -> exists b', f b a = inr b' /\ okB b') ->
  forall l b, forallb okA l = true -> okB b ->
  exists b', foldM f l b = inr b' /\ okB b'.
Proof.
  intros Hf. induction l as [|a l IH]; intros b Hl Hb; simpl.
  - now exists b.
  - simpl in Hl. apply andb_true_iff in Hl. destruct Hl as [Ha Hl].
    destruct (Hf b a Ha Hb) as [b1 [E1 H1]]. rewrite E1. simpl.
    now apply IH.
Qed.

Lemma extract_perm_ok (acc : acl) (perm : value) :
  ok_permission perm = true -> hashable_acl acc ->
  exists acc', extract_perm acc perm = inr acc' /\ hashable_acl acc'.
Proof.
  intros Hok Hacc. unfold extract_perm.
  destruct perm as [| | | | |d]; try discriminate.
  unfold ok_permission in Hok. apply andb_true_iff in Hok.
  destruct Hok as [Hg Hi].
  destruct (granted_of (VDict d)) as [e|granted]; [discriminate|].
  destruct (identities_of (VDict d)) as [e|[| | | |items|]]; try discriminate.
  simpl bind.
  assert (H1 : exists acc1,
             (if truthy granted then collect acc granted else ret acc) = inr acc1 /\
             hashable_acl acc1).
  { destruct (truthy granted); simpl in Hg; [now apply collect_ok | now exists acc]. }
  destruct H1 as [acc1 [E1 H1]]. rewrite E1. simpl.
  exact (foldM_ok collect ok_identity hashable_acl collect_ok items acc1 Hi H1).
Qed.

Lemma py_list_set_ok (xs : list value) :
  forallb hashable xs = true -> py_list_set xs = inr (set_insert_all xs []).
Proof. intros H. unfold py_list_set. now rewrite H. Qed.

Lemma foldM_app {A B} (f : B -> A -> result B) (l1 l2 : list A) (b : B) :
  foldM f (l1 ++ l2) b = (b1 <- foldM f l1 b ;; foldM f l2 b1).
Proof.
  revert b. induction l1 as [|a l1 IH]; intros b; simpl; [reflexivity|].
  destruct (f b a) as [e|b']; simpl; [reflexivity | apply IH].
Qed.

Lemma extract_perm_not_dict (acc : acl) (perm : value) :
  is_dict perm = false -> extract_perm acc perm = inl AttributeError.
Proof. destruct perm; try reflexivity. discriminate. Qed.

(** C3, as stated, fails: a record or a granted-to-identities entry that is
    not a mapping raises [AttributeError], a null identities list raises
    [TypeError], and a top-level input that cannot be iterated raises
    [TypeError], not [InvalidInput]. *)
Lemma extract_acl_fails_on_non_mapping :
  extract_acl_from_permissions (VList [VStr (u "read")]) = inl AttributeError /\
  extract_acl_from_permissions
    (VList [VDict [(u "grantedToIdentitiesV2", VList [VStr (u "u1")])]]) =
    inl AttributeError /\
  extract_acl_from_permissions
    (VList [VDict [(u "grantedToIdentities", VNone)]]) = inl TypeError /\
  extract_acl_from_permissions (VInt 3) = inl TypeError /\
  extract_acl_from_permissions (VInt 3) <> inl InvalidInput.
Proof. repeat split; try reflexivity. discriminate. Qed.

(** C3, amended. On a list of permission records that are mappings, with
    sub-fields missing, empty or themselves mappings, the extractor returns
    a pair of duplicate-free lists. The first record that is not a mapping
    makes it fail with [AttributeError], and a top-level input that cannot
    be iterated makes it fail with [TypeError]. *)
Theorem extract_acl_total_on_mappings :
  (forall perms, forallb ok_permission perms = true ->
     exists users groups,
       extract_acl_from_permissions (VList perms) = inr (users, groups) /\
       NoDup users /\ NoDup groups) /\
  (forall perms perm rest,
     forallb ok_permission perms = true -> is_dict perm = false ->
     extract_acl_from_permissions (VList (perms ++ perm :: rest)) =
     inl AttributeError) /\
  (forall permissions, not_iterable permissions = true ->
     extract_acl_from_permissions permissions = inl TypeError).
Proof.
  split; [|split].
  - intros perms Hok.
    destruct (foldM_ok extract_perm ok_permission hashable_acl extract_perm_ok
                perms ([], []) Hok (conj eq_refl eq_refl))
      as [[user_ids group_ids] [E [Hu Hg]]].
    simpl in Hu, Hg.
    exists (set_insert_all user_ids []), (set_insert_all group_ids []).
    split.
    + unfold extract_acl_from_permissions, collected_ids. simpl bind at 2.
      rewrite E. simpl.
      rewrite (py_list_set_ok user_ids Hu). simpl.
      rewrite (py_list_set_ok group_ids Hg). reflexivity.
    + split; apply set_insert_all_nodup; (assumption || constructor).
  - intros perms perm rest Hok Hnd.
    destruct (foldM_ok extract_perm ok_permission hashable_acl extract_perm_ok
                perms ([], []) Hok (conj eq_refl eq_refl))
      as [acc [E _]].
    unfold extract_acl_from_permissions, collected_ids. simpl bind at 2.
    rewrite foldM_app, E. simpl.
    now rewrite (extract_perm_not_dict acc perm Hnd).
  - intros permissions H. destruct permissions; try discriminate; reflexivity.
Qed.

Lemma extract_acl_total_on_mappings_witness :
  (exists users groups,
     extract_acl_from_permissions
       (VList [grants_user "grantedToV2" "u1";
               VDict [(u "grantedToIdentitiesV2",
                       VList [VDict [(u "group", VDict [(u "id", VStr (u "g1"))])]])];
               VDict [(u "grantedTo", VNone); (u "roles", VList [VStr (u "read")])];
               VDict []]) = inr (users, groups) /\
     NoDup users /\ NoDup groups) /\
  extract_acl_from_permissions
    (VList ([VDict []; grants_user "grantedTo" "u1"] ++ VNone :: [VDict []])) =
    inl AttributeError /\
  extract_acl_from_permissions VNone = inl TypeError.
Proof.
  split; [|split].
  - apply (proj1 extract_acl_total_on_mappings). reflexivity.
  - apply (proj1 (proj2 extract_acl_total_on_mappings)); reflexivity.
  - apply (proj2 (proj2 extract_acl_total_on_mappings)). reflexivity.
Defined.

(** ** The ACL extractor: v2 fields and legacy fields *)

(** C8, as stated, fails: with both fields present and an empty
    [grantedToV2], the identifier is read from the legacy [grantedTo]; the
    same holds for an empty [grantedToIdentitiesV2]. *)
Lemma empty_v2_falls_back_to_legacy :
  let legacy := VDict [(u "user", VDict [(u "id", VStr (u "legacy"))])] in
  let perm := VDict [(u "grantedToV2", VDict []); (u "grantedTo", legacy)] in
  let perm' := VDict [(u "grantedToIdentitiesV2", VList []);
                      (u "grantedToIdentities", VList [legacy])] in
  granted_of perm = inr legacy /\
  extract_acl_from_permissions (VList [perm]) = inr ([VStr (u "legacy")], []) /\
  identities_of perm' = inr (VList [legacy]) /\
  extract_acl_from_permissions (VList [perm']) = inr ([VStr (u "legacy")], []).
Proof. repeat split. Qed.

(** C8, amended. In a permission record, a [grantedToV2] that is present
    and not empty is the granted-to value read, whatever [grantedTo] holds,
    and the ids of the record are collected from it; when it is absent or
    empty the legacy [grantedTo] is read. The same holds for
    [grantedToIdentitiesV2] and [grantedToIdentities], and the identities
    are the empty list when neither key is present. *)
Theorem extract_acl_prefers_v2 (d : dict) :
  (forall v2, dict_get (u "grantedToV2") d = Some v2 -> truthy v2 = true ->
     granted_of (VDict d) = inr v2 /\
     forall acc,
       extract_perm acc (VDict d) =
       (acc <- collect acc v2 ;;
        identities <- identities_of (VDict d) ;;
        items <- py_iter identities ;;
        foldM collect items acc)) /\
  (truthy (field d (u "grantedToV2")) = false ->
     granted_of (VDict d) = inr (field d (u "grantedTo"))) /\
  (forall v2, dict_get (u "grantedToIdentitiesV2") d = Some v2 ->
     truthy v2 = true ->
     identities_of (VDict d) = inr v2 /\
     forall acc,
       extract_perm acc (VDict d) =
       (granted <- granted_of (VDict d) ;;
        acc <- (if truthy granted then collect acc granted else ret acc) ;;
        items <- py_iter v2 ;;
        foldM collect items acc)) /\
  (forall legacy, truthy (field d (u "grantedToIdentitiesV2")) = false ->
     dict_get (u "grantedToIdentities") d = Some legacy ->
     identities_of (VDict d) = inr legacy) /\
  (dict_get (u "grantedToIdentitiesV2") d = None ->
   dict_get (u "grantedToIdentities") d = None ->
   identities_of (VDict d) = inr (VList [])).
Proof.
  unfold extract_perm, granted_of, identities_of.
  rewrite !py_get_field. unfold field. cbn [bind].
  split; [|split; [|split; [|split]]].
  - intros v2 E T. rewrite E, T. split; [reflexivity|].
    intros acc. unfold ret at 1. cbn [bind]. now rewrite T.
  - intros ->. reflexivity.
  - intros v2 E T. rewrite E, T. split; reflexivity.
  - intros legacy -> E. cbn [py_get ret]. now rewrite E.
  - intros -> E. cbn [truthy py_get ret]. now rewrite E.
Qed.

Lemma extract_acl_prefers_v2_witness :
  let v2 := VDict [(u "user", VDict [(u "id", VStr (u "new"))])] in
  let legacy := VDict [(u "user", VDict [(u "id", VStr (u "old"))])] in
  granted_of (VDict [(u "grantedTo", legacy); (u "grantedToV2", v2)]) = inr v2 /\
  identities_of (VDict [(u "grantedToIdentities", VList [legacy]);
                        (u "grantedToIdentitiesV2", VList [v2])]) =
    inr (VList [v2]) /\
  identities_of (VDict [(u "roles", VList [])]) = inr (VList []) /\
  extract_acl_from_permissions
    (VList [VDict [(u "grantedTo", legacy); (u "grantedToV2", v2)]]) =
    inr ([VStr (u "new")], []).
Proof.
  cbv zeta. split; [|split; [|split]].
  - apply (proj1 (extract_acl_prefers_v2 _)); reflexivity.
  - apply (proj1 (proj2 (proj2 (extract_acl_prefers_v2 _)))); reflexivity.
  - apply (proj2 (proj2 (proj2 (proj2 (extract_acl_prefers_v2 _))))); reflexivity.
  - reflexivity.
Defined.

(** * Further properties *)

(** ** The chunker: what every chunk satisfies *)

Lemma split_text_layout (self : TextChunker) (input : str)
    (metadata : option dict) :
  exists groups,
    List.concat groups = units self input /\
    Forall2 (chunk_holds self) (split_text self input metadata) groups.
Proof.
  unfold split_text.
  destruct (negb (nonempty input) || negb (nonempty (strip input))) eqn:B.
  - exists []. split; [|constructor].
    unfold units. rewrite blank_no_paragraphs; [reflexivity|].
    destruct input as [|c s]; [reflexivity|].
    simpl in B. destruct (strip (c :: s)); [reflexivity | discriminate].
  - rewrite fold_paragraphs_units. apply finish_layout.
    apply (fold_units_layout self metadata (units self input) [] initial_state).
    + apply layout_initial.
    + apply units_trimmed.
Qed.

Lemma strip_fixed (s : str) : trimmed s -> strip s = s.
Proof.
  intros H. pose proof (strip_keeps_trimmed [] s [] H) as E.
  simpl in E. rewrite app_nil_r in E. rewrite E.
  unfold rstrip_with. simpl. now rewrite app_nil_r.
Qed.

Lemma trimmed_not_blank (s : str) : trimmed s -> forallb isspace s = false.
Proof.
  intros [[c [r [-> Hc]]] _]. simpl. now rewrite Hc.
Qed.

Lemma holds_trimmed (self : TextChunker) (chunks : list TextChunk)
    (groups : list (list unit_)) :
  Forall2 (chunk_holds self) chunks groups ->
  Forall (fun un => trimmed (fst un)) (List.concat groups) ->
  Forall (fun c => trimmed (text c)) chunks.
Proof.
  induction 1 as [|c g chunks groups Hc _ IH]; intros Hu; [constructor|].
  simpl in Hu. apply Forall_app in Hu. destruct Hu as [Hg Hrest].
  constructor; [|now apply IH].
  destruct Hc as [Hne [[o Ho] _]]. rewrite Ho.
  apply strip_trimmed.
  pose proof (strip_group_nonempty o g Hne Hg) as N.
  destruct (strip (o ++ render g)); [discriminate | discriminate].
Qed.

(** No chunk is empty or blank, and no chunk starts or ends with
    whitespace. *)
Theorem split_text_chunks_trimmed (self : TextChunker) (input : str)
    (metadata : option dict) :
  Forall (fun c => text c <> [] /\ forallb isspace (text c) = false /\
                   strip (text c) = text c)
         (split_text self input metadata).
Proof.
  destruct (split_text_layout self input metadata) as [groups [E H]].
  assert (T : Forall (fun c => trimmed (text c)) (split_text self input metadata)).
  { apply (holds_trimmed self _ groups H). rewrite E. apply units_trimmed. }
  eapply Forall_impl; [|exact T]. intros c Hc. cbv beta.
  split; [now apply trimmed_nonempty|].
  split; [now apply trimmed_not_blank | now apply strip_fixed].
Qed.

Lemma concat_nonempty_nil {A} (groups : list (list A)) :
  Forall (fun g => g <> []) groups -> List.concat groups = [] -> groups = [].
Proof.
  destruct 1 as [|g gs Hg _]; [reflexivity|]. simpl. intros E.
  apply app_eq_nil in E. destruct E as [E _]. contradiction.
Qed.

Lemma flat_map_nil_iff {A B} (f : A -> list B) (l : list A) :
  flat_map f l = [] <-> forall a, In a l -> f a = [].
Proof.
  induction l as [|x l IH]; simpl.
  - split; [intros _ a [] | reflexivity].
  - split.
    + intros E a [<-|Ha]; apply app_eq_nil in E; destruct E as [E1 E2];
        [exact E1 | now apply IH].
    + intros H. rewrite (H x (or_introl eq_refl)). simpl.
      apply IH. intros a Ha. apply H. now right.
Qed.

(** [split_text] returns no chunk exactly when every paragraph of the
    input is longer than [chunk_size] and has no sentence, which is the
    case of a blank input and also of a long run of sentence ends. *)
Theorem split_text_empty_iff (self : TextChunker) (input : str)
    (metadata : option dict) :
  split_text self input metadata = [] <->
  (forall para, In para (_split_into_paragraphs input) ->
     (len para > chunk_size self)%Z /\ _split_into_sentences para = []).
Proof.
  destruct (split_text_layout self input metadata) as [groups [E H]].
  assert (U : split_text self input metadata = [] <-> units self input = []).
  { split; intros N.
    - rewrite N in H. inversion H; subst. now rewrite <- E.
    - rewrite N in E.
      assert (G : groups = []).
      { apply concat_nonempty_nil; [|exact E].
        clear E. induction H as [|c g cs gs Hc _ IH]; constructor;
          [exact (proj1 Hc) | exact IH]. }
      rewrite G in H. now inversion H. }
  rewrite U. unfold units. rewrite flat_map_nil_iff.
  split; intros N para Hp; specialize (N para Hp);
    unfold units_of_paragraph in *.
  - destruct (len para >? chunk_size self)%Z eqn:G; [|discriminate].
    rewrite Z.gtb_ltb in G. apply Z.ltb_lt in G. split; [lia|].
    destruct (_split_into_sentences para); [reflexivity | discriminate].
  - destruct N as [G S]. rewrite S.
    destruct (len para >? chunk_size self)%Z eqn:G'; [reflexivity|].
    rewrite Z.gtb_ltb in G'. apply Z.ltb_ge in G'. lia.
Qed.

(** ** The chunker: offsets *)

Lemma increasing_snoc (l : list Z) (x : Z) :
  increasing l -> Forall (fun y => (y < x)%Z) l -> increasing (l ++ [x]).
Proof.
  induction l as [|y l IH]; simpl; intros Hi Hl.
  - split; constructor.
  - destruct Hi as [Hy Hi]. inversion Hl as [|? ? Hyx Hl']; subst.
    split; [|now apply IH].
    apply Forall_app. split; [exact Hy | constructor; [exact Hyx | constructor]].
Qed.

Lemma dropwhile_length (p : N -> bool) (s : str) :
  (List.length (dropwhile p s) <= List.length s)%nat.
Proof.
  destruct (dropwhile_suffix p s) as [a [E _]].
  rewrite E at 2. rewrite length_app. lia.
Qed.

Lemma strip_len (s : str) : (len (strip s) <= len s)%Z.
Proof.
  unfold strip, lstrip_with, len.
  pose proof (rstrip_with_length isspace (dropwhile isspace s)).
  pose proof (dropwhile_length isspace s). lia.
Qed.

(** Emitting the buffer as a chunk at the running start, then moving the
    start forward, keeps the offsets in order. *)
Lemma offsets_emit (chunks : list TextChunk) (cur : str) (start idx : Z)
    (metadata : option dict) (cur' : str) (start' idx' : Z) :
  offsets_ok (mkState chunks cur start idx) ->
  (0 <= start)%Z -> (start < start')%Z ->
  offsets_ok
    (mkState (chunks ++ [_create_chunk (strip cur) idx start (start + len cur)
                           metadata]) cur' start' idx').
Proof.
  intros [H0 [Hhd [Hinc [Hlt Hspan]]]] Hs Hs'. simpl in *.
  unfold offsets_ok. simpl.
  split; [intros E; now apply app_eq_nil in E; destruct E|].
  split.
  { destruct chunks as [|c chunks]; simpl; [now apply H0 | exact Hhd]. }
  split.
  { rewrite map_app. simpl. apply increasing_snoc; [exact Hinc|].
    rewrite Forall_map. exact Hlt. }
  split.
  { apply Forall_app. split.
    - eapply Forall_impl; [|exact Hlt]. intros c Hc. cbv beta in *. lia.
    - constructor; [simpl; exact Hs' | constructor]. }
  apply Forall_app. split; [exact Hspan|].
  constructor; [|constructor]. simpl.
  pose proof (strip_len cur). lia.
Qed.

Lemma offsets_start_nonneg (st : loop_state) :
  offsets_ok st -> (0 <= st_current_start st)%Z.
Proof.
  intros [H0 [_ [_ [Hlt Hspan]]]].
  destruct (st_chunks st) as [|c chunks]; [rewrite H0; [lia | reflexivity]|].
  inversion Hlt; subst. inversion Hspan; subst. lia.
Qed.

Lemma add_unit_offsets (self : TextChunker) (metadata : option dict)
    (st : loop_state) (un : unit_) :
  offsets_ok st -> trimmed (fst un) ->
  offsets_ok (add_unit self metadata st un).
Proof.
  intros H Hun. pose proof (offsets_start_nonneg st H) as Hs.
  destruct st as [chunks cur start idx], un as [unit sep].
  simpl in Hun, Hs. unfold add_unit.
  destruct (len cur + len unit <=? chunk_size self)%Z; [exact H|].
  destruct (nonempty cur); [|exact H].
  apply offsets_emit; [exact H | exact Hs|].
  rewrite !len_app.
  assert (0 < len unit)%Z.
  { apply trimmed_nonempty in Hun. unfold len. destruct unit; [congruence|].
    simpl. lia. }
  pose proof (len_nonneg sep). lia.
Qed.

Lemma fold_units_offsets (self : TextChunker) (metadata : option dict)
    (us : list unit_) (st : loop_state) :
  offsets_ok st -> Forall (fun un => trimmed (fst un)) us ->
  offsets_ok (fold_left (add_unit self metadata) us st).
Proof.
  revert st. induction us as [|un us IH]; intros st H Hus; [exact H|].
  simpl. inversion Hus; subst. apply IH; [|assumption].
  now apply add_unit_offsets.
Qed.

(** The first chunk starts at offset 0, the start offsets increase from
    chunk to chunk, and the span of a chunk is at least as long as its
    text. *)
Theorem split_text_offsets (self : TextChunker) (input : str)
    (metadata : option dict) :
  match split_text self input metadata with
  | [] => True
  | c :: _ => start_char c = 0%Z
  end /\
  increasing (map start_char (split_text self input metadata)) /\
  Forall (fun c => (0 <= start_char c)%Z /\
                   (start_char c + len (text c) <= end_char c)%Z)
         (split_text self input metadata).
Proof.
  unfold split_text.
  destruct (negb (nonempty input) || negb (nonempty (strip input))).
  { repeat split; constructor. }
  rewrite fold_paragraphs_units. fold (units self input).
  assert (H : offsets_ok (fold_left (add_unit self metadata)
                            (units self input) initial_state)).
  { apply fold_units_offsets; [|apply units_trimmed].
    unfold offsets_ok. simpl. repeat split; constructor. }
  pose proof (offsets_start_nonneg _ H) as Hs.
  destruct (fold_left (add_unit self metadata) (units self input) initial_state)
    as [chunks cur start idx].
  unfold finish. destruct (nonempty (strip cur)).
  - pose proof (offsets_emit chunks cur start idx metadata cur (start + 1) idx
                  H Hs ltac:(lia)) as [_ [Hhd [Hinc [_ Hspan]]]].
    split; [exact Hhd | split; [exact Hinc | exact Hspan]].
  - destruct H as [_ [Hhd [Hinc [_ Hspan]]]].
    split; [exact Hhd | split; [exact Hinc | exact Hspan]].
Qed.

(** ** The chunker: how long a chunk can be *)

Lemma dropwhile_app_all (p : N -> bool) (a l : str) :
  forallb p a = true -> dropwhile p (a ++ l) = dropwhile p l.
Proof.
  induction a as [|c a IH]; simpl; [reflexivity|].
  intros H. apply andb_true_iff in H. destruct H as [Hc Ha].
  rewrite Hc. now apply IH.
Qed.

Lemma dropwhile_app_keep (p : N -> bool) (a b : str) :
  dropwhile p a <> [] -> dropwhile p (a ++ b) = dropwhile p a ++ b.
Proof.
  induction a as [|c a IH]; simpl; [congruence|].
  destruct (p c); [exact IH | reflexivity].
Qed.

Lemma rstrip_with_app_all (p : N -> bool) (s ws : str) :
  forallb p ws = true -> rstrip_with p (s ++ ws) = rstrip_with p s.
Proof.
  intros H. unfold rstrip_with. rewrite rev_app_distr.
  rewrite dropwhile_app_all by now apply forallb_rev. reflexivity.
Qed.

Lemma strip_body_len (body ws : str) :
  forallb isspace ws = true -> (len (strip (body ++ ws)) <= len body)%Z.
Proof.
  intros Hws. unfold strip, lstrip_with.
  destruct (dropwhile isspace body) as [|c r] eqn:D.
  - destruct (dropwhile_suffix isspace body) as [a [E F]].
    rewrite D, app_nil_r in E. subst a.
    rewrite dropwhile_all by now apply forallb_app_true.
    apply len_nonneg.
  - rewrite dropwhile_app_keep by congruence.
    rewrite rstrip_with_app_all by exact Hws.
    unfold len.
    pose proof (rstrip_with_length isspace (dropwhile isspace body)).
    pose proof (dropwhile_length isspace body). lia.
Qed.

Lemma overlap_text_len (self : TextChunker) (current_chunk : str) :
  (0 < chunk_overlap self)%Z ->
  (len (overlap_text self current_chunk) <= chunk_overlap self)%Z.
Proof.
  intros Hpos. rewrite overlap_text_positive by exact Hpos.
  unfold last_chars, len. rewrite length_skipn. lia.
Qed.

Lemma add_unit_bounded (self : TextChunker) (metadata : option dict) (M : Z)
    (st : loop_state) (un : unit_) :
  (0 < chunk_overlap self)%Z -> (chunk_size self <= M)%Z ->
  forallb isspace (snd un) = true -> (len (fst un) <= M)%Z ->
  bounded (chunk_overlap self + M) st ->
  bounded (chunk_overlap self + M) (add_unit self metadata st un).
Proof.
  intros Hco Hcs Hsep Hun [Hch Hcur].
  destruct st as [chunks cur start idx], un as [unit sep].
  simpl in Hsep, Hun, Hch, Hcur. unfold add_unit.
  destruct (len cur + len unit <=? chunk_size self)%Z eqn:Efit.
  - apply Z.leb_le in Efit. split; [exact Hch|]. right. simpl.
    exists (cur ++ unit), sep. split; [now rewrite app_assoc|].
    split; [exact Hsep|]. rewrite len_app. lia.
  - destruct cur as [|c cur'] eqn:Ecur; simpl nonempty; cbv iota.
    + split; [exact Hch|]. right. simpl.
      exists unit, sep. repeat split; [exact Hsep | lia].
    + split; simpl.
      * apply Forall_app. split; [exact Hch|]. constructor; [|constructor].
        simpl. destruct Hcur as [Hnil|[body [ws [E [Hws Hb]]]]]; [discriminate|].
        rewrite E. pose proof (strip_body_len body ws Hws). lia.
      * right. exists (overlap_text self (c :: cur') ++ unit), sep.
        split; [reflexivity|]. split; [exact Hsep|].
        rewrite len_app.
        pose proof (overlap_text_len self (c :: cur') Hco). lia.
Qed.

Lemma fold_units_bounded (self : TextChunker) (metadata : option dict) (M : Z)
    (us : list unit_) (st : loop_state) :
  (0 < chunk_overlap self)%Z -> (chunk_size self <= M)%Z ->
  Forall (fun un => forallb isspace (snd un) = true /\ (len (fst un) <= M)%Z) us ->
  bounded (chunk_overlap self + M) st ->
  bounded (chunk_overlap self + M) (fold_left (add_unit self metadata) us st).
Proof.
  intros Hco Hcs Hus. revert st.
  induction Hus as [|un us [Hsep Hun] _ IH]; intros st H; [exact H|].
  simpl. apply IH. now apply add_unit_bounded.
Qed.

Lemma units_bound (self : TextChunker) (input : str) (m : Z) :
  (forall para sentence,
     In para (_split_into_paragraphs input) ->
     (len para > chunk_size self)%Z ->
     In sentence (_split_into_sentences para) -> (len sentence <= m)%Z) ->
  Forall (fun un => forallb isspace (snd un) = true /\
                    (len (fst un) <= Z.max (chunk_size self) m)%Z)
         (units self input).
Proof.
  intros H. unfold units. apply Forall_forall. intros un Hun.
  apply in_flat_map in Hun. destruct Hun as [para [Hp Hun]].
  unfold units_of_paragraph in Hun.
  destruct (len para >? chunk_size self)%Z eqn:G.
  - rewrite Z.gtb_ltb in G. apply Z.ltb_lt in G.
    apply in_map_iff in Hun. destruct Hun as [s [<- Hs]]. simpl.
    split; [reflexivity|].
    specialize (H para s Hp ltac:(lia) Hs). lia.
  - rewrite Z.gtb_ltb in G. apply Z.ltb_ge in G.
    destruct Hun as [<-|[]]. simpl. split; [reflexivity | lia].
Qed.

(** With a positive overlap, a chunk has at most [chunk_overlap] more
    characters than the larger of [chunk_size] and the longest sentence of
    a paragraph that exceeds [chunk_size]. *)
Theorem split_text_chunk_length (self : TextChunker) (input : str)
    (metadata : option dict) (m : Z) :
  (0 < chunk_overlap self)%Z ->
  (forall para sentence,
     In para (_split_into_paragraphs input) ->
     (len para > chunk_size self)%Z ->
     In sentence (_split_into_sentences para) -> (len sentence <= m)%Z) ->
  Forall (fun c => (len (text c) <=
                    chunk_overlap self + Z.max (chunk_size self) m)%Z)
         (split_text self input metadata).
Proof.
  intros Hco Hm. unfold split_text.
  destruct (negb (nonempty input) || negb (nonempty (strip input)));
    [constructor|].
  rewrite fold_paragraphs_units. fold (units self input).
  assert (H : bounded (chunk_overlap self + Z.max (chunk_size self) m)
                (fold_left (add_unit self metadata) (units self input)
                   initial_state)).
  { apply fold_units_bounded; [exact Hco | lia | now apply units_bound|].
    split; [constructor | now left]. }
  destruct (fold_left (add_unit self metadata) (units self input) initial_state)
    as [chunks cur start idx].
  destruct H as [Hch Hcur]. simpl in Hch, Hcur. unfold finish.
  destruct (nonempty (strip cur)) eqn:Ne; [|exact Hch].
  apply Forall_app. split; [exact Hch|]. constructor; [|constructor]. simpl.
  destruct Hcur as [->|[body [ws [E [Hws Hb]]]]]; [discriminate|].
  rewrite E. pose proof (strip_body_len body ws Hws). lia.
Qed.

Lemma split_text_chunk_length_witness :
  Forall (fun c => (len (text c) <= 3 + Z.max 10 12)%Z)
         (split_text (mkTextChunker 10 3) (u "Hello world. Foo bar baz.") None).
Proof.
  apply (split_text_chunk_length (mkTextChunker 10 3)
           (u "Hello world. Foo bar baz.") None 12).
  - reflexivity.
  - intros para sentence Hp _ Hs.
    destruct Hp as [<-|[]].
    destruct Hs as [<-|[<-|[]]]; vm_compute; discriminate.
Defined.

(** ** The chunker: a text that fits in one chunk *)

Lemma join_cons (sep p : str) (rest : list str) :
  rest <> [] -> join sep (p :: rest) = p ++ sep ++ join sep rest.
Proof. destruct rest; [congruence | reflexivity]. Qed.

Lemma paragraphs_buffer_join (paragraphs : list str) :
  paragraphs <> [] ->
  paragraphs_buffer paragraphs = join blank_line paragraphs ++ blank_line.
Proof.
  induction paragraphs as [|p ps IH]; [congruence|]. intros _.
  destruct ps as [|q ps]; [simpl; now rewrite app_nil_r|].
  rewrite join_cons by discriminate.
  change (paragraphs_buffer (p :: q :: ps))
    with ((p ++ blank_line) ++ paragraphs_buffer (q :: ps)).
  rewrite IH by discriminate. now rewrite <- !app_assoc.
Qed.

Lemma paragraphs_buffer_app (a b : list str) :
  paragraphs_buffer (a ++ b) = paragraphs_buffer a ++ paragraphs_buffer b.
Proof. unfold paragraphs_buffer. apply flat_map_app. Qed.

Lemma trimmed_app (a m b : str) : trimmed a -> trimmed b -> trimmed (a ++ m ++ b).
Proof.
  intros [[c [r [-> Hc]]] _] [_ [r' [l [-> Hl]]]]. split.
  - exists c, (r ++ m ++ r' ++ [l]). split; [reflexivity | exact Hc].
  - exists ((c :: r) ++ m ++ r'), l. split; [|exact Hl].
    now rewrite <- !app_assoc.
Qed.

Lemma join_trimmed (sep : str) (paragraphs : list str) :
  paragraphs <> [] -> Forall trimmed paragraphs -> trimmed (join sep paragraphs).
Proof.
  induction paragraphs as [|p ps IH]; [congruence|]. intros _ H.
  inversion H as [|? ? Hp Hps]; subst.
  destruct ps as [|q ps]; [exact Hp|].
  rewrite join_cons by discriminate.
  apply trimmed_app; [exact Hp | apply IH; [discriminate | exact Hps]].
Qed.

(** While the paragraphs fit together, the loop only appends. *)
Lemma fold_paragraphs_fit (self : TextChunker) (metadata : option dict)
    (rest done : list str) :
  (len (paragraphs_buffer (done ++ rest)) <= chunk_size self + 2)%Z ->
  fold_left (add_paragraph self metadata) rest
    (mkState [] (paragraphs_buffer done) 0 0) =
  mkState [] (paragraphs_buffer (done ++ rest)) 0 0.
Proof.
  revert done. induction rest as [|p rest IH]; intros done H.
  - now rewrite app_nil_r.
  - simpl fold_left.
    replace (done ++ p :: rest) with ((done ++ [p]) ++ rest) in *
      by now rewrite <- app_assoc.
    rewrite <- IH by exact H. f_equal.
    rewrite !paragraphs_buffer_app in H.
    change (paragraphs_buffer [p]) with ((p ++ blank_line) ++ []) in H.
    rewrite !len_app in H. change (len blank_line) with 2%Z in H.
    pose proof (len_nonneg (paragraphs_buffer done)).
    pose proof (len_nonneg (paragraphs_buffer rest)).
    pose proof (len_nonneg p). change (len []) with 0%Z in H.
    unfold add_paragraph.
    destruct (len p >? chunk_size self)%Z eqn:G.
    { rewrite Z.gtb_ltb in G. apply Z.ltb_lt in G. lia. }
    destruct (len (paragraphs_buffer done) + len p <=? chunk_size self)%Z eqn:F.
    + rewrite paragraphs_buffer_app.
      change (paragraphs_buffer [p]) with ((p ++ blank_line) ++ []).
      now rewrite app_nil_r.
    + apply Z.leb_gt in F. lia.
Qed.

(** When the paragraphs of the input, joined by blank lines, have at most
    [chunk_size] characters, [split_text] returns one chunk: that joined
    text, with index 0 and start 0. *)
Theorem split_text_single_chunk (self : TextChunker) (input : str)
    (metadata : option dict) :
  _split_into_paragraphs input <> [] ->
  (len (join blank_line (_split_into_paragraphs input)) <= chunk_size self)%Z ->
  split_text self input metadata =
  [_create_chunk (join blank_line (_split_into_paragraphs input)) 0 0
     (len (join blank_line (_split_into_paragraphs input)) + 2) metadata].
Proof.
  intros Hne Hfit.
  pose proof (paragraphs_buffer_join _ Hne) as EB.
  unfold split_text.
  destruct (negb (nonempty input) || negb (nonempty (strip input))) eqn:B.
  { exfalso. apply Hne. apply blank_no_paragraphs.
    destruct input as [|c s]; [reflexivity|].
    simpl in B. destruct (strip (c :: s)); [reflexivity | discriminate]. }
  change initial_state with (mkState [] (paragraphs_buffer []) 0 0).
  rewrite fold_paragraphs_fit.
  2:{ simpl app. rewrite EB, len_app. change (len blank_line) with 2%Z. lia. }
  simpl app. unfold finish. rewrite EB.
  assert (S : strip (join blank_line (_split_into_paragraphs input) ++ blank_line)
              = join blank_line (_split_into_paragraphs input)).
  { pose proof (join_trimmed blank_line _ Hne (paragraphs_trimmed input)) as T.
    pose proof (strip_keeps_trimmed [] _ blank_line T) as E.
    simpl app in E. rewrite E.
    change (rstrip_with isspace blank_line) with (@nil N).
    now rewrite app_nil_r. }
  rewrite S.
  assert (Nz : nonempty (join blank_line (_split_into_paragraphs input)) = true).
  { pose proof (trimmed_nonempty _
                  (join_trimmed blank_line _ Hne (paragraphs_trimmed input))).
    destruct (join blank_line (_split_into_paragraphs input));
      [congruence | reflexivity]. }
  rewrite Nz. simpl app. rewrite len_app. reflexivity.
Qed.

Lemma split_text_single_chunk_witness :
  map (fun c => (text c, chunk_index c, start_char c, end_char c))
    (split_text (mkTextChunker default_chunk_size default_chunk_overlap)
       (u "  Para one." ++ [newline; 32; newline; newline]%N ++ u "Para two. ")
       None) =
  [(u "Para one." ++ blank_line ++ u "Para two.", 0%Z, 0%Z, 22%Z)].
Proof.
  rewrite (split_text_single_chunk
             (mkTextChunker default_chunk_size default_chunk_overlap)
             (u "  Para one." ++ [newline; 32; newline; newline]%N ++
              u "Para two. ") None).
  - reflexivity.
  - discriminate.
  - vm_compute. discriminate.
Defined.

(** ** The document id: clean parts and chunk indices *)

Lemma filter_all {A} (f : A -> bool) (l : list A) :
  forallb f l = true -> filter f l = l.
Proof.
  induction l as [|x l IH]; simpl; [reflexivity|].
  intros H. apply andb_true_iff in H. destruct H as [Hx Hl].
  rewrite Hx. now rewrite IH.
Qed.

Lemma sanitize_clean_part (s : str) (m : Z) :
  clean_part m s -> sanitize_id_part s m = s.
Proof.
  intros [Hm [Hl Hr]]. unfold sanitize_id_part. cbv zeta.
  rewrite (filter_all _ _ (matches_all_safe s Hm)).
  destruct s as [|c r]; [discriminate|].
  simpl in Hm. apply andb_true_iff in Hm. destruct Hm as [Hc _].
  rewrite Hc. cbn [negb].
  destruct (len (c :: r) >? m)%Z eqn:G.
  { rewrite Z.gtb_ltb in G. apply Z.ltb_lt in G. lia. }
  rewrite Hr. reflexivity.
Qed.

Lemma rstrip_with_idempotent (p : N -> bool) (s : str) :
  rstrip_with p (rstrip_with p s) = rstrip_with p s.
Proof.
  destruct (rstrip_with p s) as [|c r] eqn:E; [reflexivity|].
  assert (Hne : c :: r <> []) by discriminate.
  destruct (exists_last Hne) as [r' [l El]]. rewrite El in *.
  pose proof (rstrip_with_last p s r' l E) as Hl.
  rewrite (rstrip_with_app_stop p r' l [] Hl). reflexivity.
Qed.

Lemma rstrip_fallback_fixed (s : str) :
  rstrip (u "-_")
    (match rstrip (u "-_") s with [] => u "unknown" | _ => rstrip (u "-_") s end) =
  match rstrip (u "-_") s with [] => u "unknown" | _ => rstrip (u "-_") s end.
Proof.
  destruct (rstrip (u "-_") s) as [|c r] eqn:E; [reflexivity|].
  rewrite <- E. apply rstrip_with_idempotent.
Qed.

Lemma sanitize_id_part_clean (text : str) (m : Z) :
  (1 <= m)%Z -> clean_part m (sanitize_id_part text m).
Proof.
  intros Hm. destruct (sanitize_id_part_ok text m Hm) as [H1 H2].
  split; [exact H1|]. split; [exact H2|].
  unfold sanitize_id_part. cbv zeta. apply rstrip_fallback_fixed.
Qed.

(** Identifiers that are already clean pass through unchanged: when the
    three parts match the id pattern, respect the limits 20, 20 and 40 and
    do not end in a hyphen or an underscore, and the chunk index, if any,
    renders in at most 941 characters, the document id is the three parts
    and the index joined by underscores. *)
Theorem create_document_id_clean_parts (site_id drive_id item_id : str)
    (chunk_index : option Z) :
  clean_part 20 site_id -> clean_part 20 drive_id -> clean_part 40 item_id ->
  match chunk_index with
  | Some ci => (len (str_of_int ci) <= 941)%Z
  | None => True
  end ->
  create_document_id site_id drive_id item_id chunk_index =
  joined_id site_id drive_id item_id chunk_index.
Proof.
  intros Hs Hd Hi Hci. unfold create_document_id. cbv zeta.
  rewrite (sanitize_clean_part site_id 20 Hs),
          (sanitize_clean_part drive_id 20 Hd),
          (sanitize_clean_part item_id 40 Hi).
  destruct Hs as [_ [Ls _]], Hd as [_ [Ld _]], Hi as [_ [Li _]].
  destruct (len (joined_id site_id drive_id item_id chunk_index) >? 1024)%Z eqn:G;
    [|reflexivity].
  rewrite Z.gtb_ltb in G. apply Z.ltb_lt in G.
  destruct chunk_index as [ci|]; unfold joined_id in G;
    rewrite !len_app in G; change (len underscore) with 1%Z in G; lia.
Qed.

Lemma create_document_id_clean_parts_witness :
  create_document_id (u "contoso-site") (u "b_Drive01") (u "item-42") (Some 7%Z) =
  u "contoso-site_b_Drive01_item-42_7".
Proof.
  rewrite (create_document_id_clean_parts (u "contoso-site") (u "b_Drive01")
             (u "item-42") (Some 7%Z)).
  - reflexivity.
  - repeat split. vm_compute. discriminate.
  - repeat split. vm_compute. discriminate.
  - repeat split. vm_compute. discriminate.
  - vm_compute. discriminate.
Defined.

(** Sanitizing is idempotent: its result is a clean part. *)
Lemma sanitize_id_part_idempotent (text : str) (m : Z) :
  (1 <= m)%Z ->
  sanitize_id_part (sanitize_id_part text m) m = sanitize_id_part text m.
Proof. intros Hm. now apply sanitize_clean_part, sanitize_id_part_clean. Qed.

Lemma sanitize_id_part_idempotent_witness :
  sanitize_id_part (sanitize_id_part (u "123-site/Shared Documents__") 20) 20 =
  sanitize_id_part (u "123-site/Shared Documents__") 20.
Proof. apply sanitize_id_part_idempotent. lia. Defined.

Lemma digits_of_number_chars (fuel : nat) (n : N) (acc : str) :
  forallb is_ascii_digit acc = true ->
  forallb is_ascii_digit (digits_of fuel n acc) = true.
Proof.
  assert (D : forall k, is_ascii_digit (48 + k mod 10)%N = true).
  { intros k.
    assert (H : (k mod 10 < 10)%N) by (apply N.mod_upper_bound; discriminate).
    revert H. generalize (k mod 10)%N. intros d H.
    unfold is_ascii_digit, in_range. bool_to_prop. lia. }
  revert n acc. induction fuel as [|f IH]; intros n acc Hacc.
  - cbn [digits_of forallb]. now rewrite Hacc, D.
  - cbn [digits_of]. destruct (n / 10 =? 0)%N.
    + cbn [forallb]. now rewrite Hacc, D.
    + apply IH. cbn [forallb]. now rewrite Hacc, D.
Qed.

Lemma digits_of_nonempty (fuel : nat) (n : N) (acc : str) :
  digits_of fuel n acc <> [].
Proof.
  rewrite digits_of_acc.
  destruct fuel; cbn [digits_of].
  - discriminate.
  - destruct (n / 10 =? 0)%N; [discriminate|].
    rewrite digits_of_acc. destruct (digits_of fuel (n / 10) []); discriminate.
Qed.

Lemma str_of_N_digits (n : N) : forallb is_ascii_digit (str_of_N n) = true.
Proof. now apply digits_of_number_chars. Qed.

Lemma str_of_int_number_chars (z : Z) :
  forallb is_number_char (str_of_int z) = true.
Proof.
  assert (W : forall s, forallb is_ascii_digit s = true ->
                        forallb is_number_char s = true).
  { intros s H. rewrite forallb_forall in *. intros c Hc.
    unfold is_number_char. now rewrite (H c Hc). }
  destruct z as [|q|q]; [reflexivity | |].
  - apply W, str_of_N_digits.
  - cbn [str_of_int forallb]. rewrite (W _ (str_of_N_digits (N.pos q))).
    reflexivity.
Qed.

Lemma str_of_N_injective (n n' : N) : str_of_N n = str_of_N n' -> n = n'.
Proof.
  intros E. rewrite <- (str_of_N_value n), <- (str_of_N_value n'). now rewrite E.
Qed.

Lemma str_of_N_head_digit (n : N) :
  exists c r, str_of_N n = c :: r /\ is_ascii_digit c = true.
Proof.
  pose proof (str_of_N_digits n) as D.
  pose proof (digits_of_nonempty (N.to_nat (N.log2 n)) n []) as Hne.
  fold (str_of_N n) in Hne.
  destruct (str_of_N n) as [|c r]; [congruence|].
  exists c, r. split; [reflexivity|].
  simpl in D. apply andb_true_iff in D. now destruct D.
Qed.

(** [str] of an integer determines the integer. *)
Lemma str_of_int_injective (a b : Z) : str_of_int a = str_of_int b -> a = b.
Proof.
  assert (Z0P : forall q, u "0" <> str_of_N (N.pos q)).
  { intros q E. pose proof (str_of_N_value (N.pos q)) as V.
    rewrite <- E in V. discriminate V. }
  assert (NEG : forall q n, 45%N :: str_of_N (N.pos q) <> str_of_N n).
  { intros q n E. destruct (str_of_N_head_digit n) as [c [r [En Hc]]].
    rewrite En in E. injection E as <- _. discriminate Hc. }
  destruct a as [|p|p], b as [|q|q]; cbn [str_of_int]; intros E;
    try reflexivity.
  - now apply Z0P in E.
  - discriminate E.
  - symmetry in E. now apply Z0P in E.
  - apply str_of_N_injective in E. now injection E as ->.
  - symmetry in E. now apply NEG in E.
  - discriminate E.
  - now apply NEG in E.
  - injection E as E. apply str_of_N_injective in E. now injection E as ->.
Qed.

(** Two strings that agree from their last underscore on. *)
Lemma tail_after_separator (c : N) (a a' r r' : str) :
  forallb (fun x => negb (N.eqb x c)) a = true ->
  forallb (fun x => negb (N.eqb x c)) a' = true ->
  a ++ c :: r = a' ++ c :: r' -> a = a'.
Proof.
  revert a'. induction a as [|x a IH]; intros [|y a'] Ha Ha' E; simpl in *.
  - reflexivity.
  - injection E as <- _. apply andb_true_iff in Ha'. destruct Ha' as [H _].
    rewrite N.eqb_refl in H. discriminate.
  - injection E as -> _. apply andb_true_iff in Ha. destruct Ha as [H _].
    rewrite N.eqb_refl in H. discriminate.
  - injection E as -> E. apply andb_true_iff in Ha, Ha'.
    f_equal. apply IH; tauto.
Qed.

Lemma create_document_id_index_tail (site_id drive_id item_id : str) (ci : Z) :
  exists head,
    create_document_id site_id drive_id item_id (Some ci) =
    head ++ underscore ++ str_of_int ci.
Proof.
  unfold create_document_id. cbv zeta.
  destruct (len _ >? 1024)%Z.
  - unfold hashed_id. cbv zeta.
    match goal with
    | |- context [?a ++ underscore ++ ?b ++ underscore ++ ?h ++ underscore ++ _] =>
        exists (a ++ underscore ++ b ++ underscore ++ h)
    end.
    now rewrite <- !app_assoc.
  - unfold joined_id.
    match goal with
    | |- context [?a ++ underscore ++ ?b ++ underscore ++ ?h ++ underscore ++ _] =>
        exists (a ++ underscore ++ b ++ underscore ++ h)
    end.
    now rewrite <- !app_assoc.
Qed.

(** Identifiers built with different chunk indices are different, whatever
    the site, drive and item ids are and whichever branch of the length
    check produced them. *)
Theorem create_document_id_index_distinct
    (site_id drive_id item_id site_id' drive_id' item_id' : str) (ci ci' : Z) :
  ci <> ci' ->
  create_document_id site_id drive_id item_id (Some ci) <>
  create_document_id site_id' drive_id' item_id' (Some ci').
Proof.
  intros Hne E. apply Hne.
  destruct (create_document_id_index_tail site_id drive_id item_id ci)
    as [h Eh].
  destruct (create_document_id_index_tail site_id' drive_id' item_id' ci')
    as [h' Eh'].
  rewrite Eh, Eh' in E.
  apply (f_equal (@rev N)) in E.
  rewrite !rev_app_distr in E. change (rev underscore) with [95%N] in E.
  rewrite <- !app_assoc in E. simpl app in E.
  assert (NoU : forall z, forallb (fun x => negb (N.eqb x 95))
                            (rev (str_of_int z)) = true).
  { intros z. apply forallb_rev.
    pose proof (str_of_int_number_chars z) as H.
    rewrite forallb_forall in *. intros c Hc. specialize (H c Hc).
    unfold is_number_char, is_ascii_digit, in_range in H.
    bool_to_prop. lia. }
  apply tail_after_separator in E; [|apply NoU|apply NoU].
  apply str_of_int_injective.
  rewrite <- (rev_involutive (str_of_int ci)), E. apply rev_involutive.
Qed.

Lemma create_document_id_index_distinct_witness :
  create_document_id (u "site") (u "drive") (u "item_1") (Some 2%Z) <>
  create_document_id (u "site") (u "drive") (u "item") (Some 1%Z) /\
  create_document_id (u "s") (u "d") (u "i") (Some (10 ^ 1100)%Z) <>
  create_document_id (u "s") (u "d") (u "i") (Some (10 ^ 1100 + 1)%Z).
Proof.
  split; apply create_document_id_index_distinct; discriminate.
Defined.

(** ** Plain text: UTF-8 *)

Lemma below_cases (P : N -> bool) (n : nat) :
  forallb P (map N.of_nat (seq 0 n)) = true ->
  forall x, (x < N.of_nat n)%N -> P x = true.
Proof.
  intros H x Hx. rewrite forallb_forall in H. apply H.
  apply in_map_iff. exists (N.to_nat x). split; [apply N2Nat.id|].
  apply in_seq. lia.
Qed.

Lemma lor_80 (x : N) : (x < 64)%N -> N.lor 0x80 x = (0x80 + x)%N.
Proof.
  intros H. apply N.eqb_eq.
  apply (below_cases (fun x => N.lor 0x80 x =? 0x80 + x)%N 64); [reflexivity | exact H].
Qed.

Lemma lor_C0 (x : N) : (x < 32)%N -> N.lor 0xC0 x = (0xC0 + x)%N.
Proof.
  intros H. apply N.eqb_eq.
  apply (below_cases (fun x => N.lor 0xC0 x =? 0xC0 + x)%N 32); [reflexivity | exact H].
Qed.

Lemma lor_E0 (x : N) : (x < 16)%N -> N.lor 0xE0 x = (0xE0 + x)%N.
Proof.
  intros H. apply N.eqb_eq.
  apply (below_cases (fun x => N.lor 0xE0 x =? 0xE0 + x)%N 16); [reflexivity | exact H].
Qed.

Lemma lor_F0 (x : N) : (x < 8)%N -> N.lor 0xF0 x = (0xF0 + x)%N.
Proof.
  intros H. apply N.eqb_eq.
  apply (below_cases (fun x => N.lor 0xF0 x =? 0xF0 + x)%N 8); [reflexivity | exact H].
Qed.

Lemma land_3F (x : N) : N.land x 0x3F = (x mod 64)%N.
Proof. change 0x3F%N with (N.ones 6). apply N.land_ones. Qed.

Lemma shiftr_div (x : N) :
  N.shiftr x 6 = (x / 64)%N /\ N.shiftr x 12 = (x / 64 / 64)%N /\
  N.shiftr x 18 = (x / 64 / 64 / 64)%N.
Proof.
  rewrite !N.shiftr_div_pow2. rewrite !N.Div0.div_div.
  repeat split; reflexivity.
Qed.

(** A code point as base-64 digits. *)
Lemma base64_digits (c : N) :
  exists d0 d1 d2 d3,
    (c mod 64 = d0 /\ (c / 64) mod 64 = d1 /\ (c / 64 / 64) mod 64 = d2 /\
     c / 64 / 64 / 64 = d3 /\
     c / 64 = d1 + 64 * (d2 + 64 * d3) /\ c / 64 / 64 = d2 + 64 * d3 /\
     c = d0 + 64 * (d1 + 64 * (d2 + 64 * d3)) /\
     d0 < 64 /\ d1 < 64 /\ d2 < 64)%N.
Proof.
  exists (c mod 64)%N, ((c / 64) mod 64)%N, ((c / 64 / 64) mod 64)%N,
         (c / 64 / 64 / 64)%N.
  pose proof (N.div_mod c 64 ltac:(discriminate)) as E0.
  pose proof (N.div_mod (c / 64) 64 ltac:(discriminate)) as E1.
  pose proof (N.div_mod (c / 64 / 64) 64 ltac:(discriminate)) as E2.
  pose proof (N.mod_upper_bound c 64 ltac:(discriminate)) as B0.
  pose proof (N.mod_upper_bound (c / 64) 64 ltac:(discriminate)) as B1.
  pose proof (N.mod_upper_bound (c / 64 / 64) 64 ltac:(discriminate)) as B2.
  revert E0 E1 E2 B0 B1 B2.
  generalize (c mod 64)%N, ((c / 64) mod 64)%N, ((c / 64 / 64) mod 64)%N,
             (c / 64 / 64 / 64)%N.
  generalize (c / 64 / 64)%N. generalize (c / 64)%N.
  intros q1 q2 d0 d1 d2 d3 E0 E1 E2 B0 B1 B2.
  repeat split; lia.
Qed.

(** [encode_char] with the bit operations written as arithmetic. *)
Lemma encode_char_arith (c : N) :
  encode_char c =
  if (c <? 0x80)%N then [c]
  else if (c <? 0x800)%N then [0xC0 + c / 64; 0x80 + c mod 64]%N
  else if (c <? 0x10000)%N then
    [0xE0 + c / 64 / 64; 0x80 + (c / 64) mod 64; 0x80 + c mod 64]%N
  else if (c <? 0x200000)%N then
    [0xF0 + c / 64 / 64 / 64; 0x80 + (c / 64 / 64) mod 64;
     0x80 + (c / 64) mod 64; 0x80 + c mod 64]%N
  else encode_char c.
Proof.
  unfold encode_char at 1.
  destruct (shiftr_div c) as [S6 [S12 S18]].
  destruct (base64_digits c) as [d0 [d1 [d2 [d3 [M0 [M1 [M2 [M3 [Q1 [Q2 [E [B0 [B1 B2]]]]]]]]]]]]].
  rewrite !land_3F, S6, S12, S18, M0, M1, M2, M3.
  destruct (c <? 0x80)%N eqn:C1; [reflexivity|].
  destruct (c <? 0x800)%N eqn:C2.
  { apply N.ltb_lt in C2. rewrite Q1, lor_C0, lor_80 by lia. reflexivity. }
  destruct (c <? 0x10000)%N eqn:C3.
  { apply N.ltb_lt in C3. rewrite Q2, lor_E0, !lor_80 by lia. reflexivity. }
  destruct (c <? 0x200000)%N eqn:C4.
  { apply N.ltb_lt in C4. rewrite lor_F0, !lor_80 by lia. reflexivity. }
  unfold encode_char. rewrite C1, C2, C3.
  rewrite !land_3F, S6, S12, S18, M0, M1, M2, M3. reflexivity.
Qed.

Ltac range_true :=
  unfold is_continuation, in_range; bool_to_prop; lia.

Lemma utf8_decode_1 (b0 : N) (rest : bytes) :
  (b0 < 0x80)%N ->
  utf8_decode (b0 :: rest) = option_map (cons b0) (utf8_decode rest).
Proof.
  intros H. cbn [utf8_decode].
  apply N.ltb_lt in H. now rewrite H.
Qed.

Lemma utf8_decode_2 (b0 b1 : N) (rest : bytes) :
  (0xC2 <= b0 <= 0xDF)%N -> (0x80 <= b1 <= 0xBF)%N ->
  utf8_decode (b0 :: b1 :: rest) =
  option_map (cons ((b0 - 0xC0) * 64 + (b1 - 0x80))%N) (utf8_decode rest).
Proof.
  intros H0 H1. cbn [utf8_decode].
  assert (E1 : (b0 <? 0x80)%N = false) by (apply N.ltb_ge; lia).
  assert (E2 : in_range 0xC2 0xDF b0 = true) by range_true.
  assert (E3 : is_continuation b1 = true) by range_true.
  now rewrite E1, E2, E3.
Qed.

Lemma utf8_decode_3 (b0 b1 b2 : N) (rest : bytes) :
  let c := ((b0 - 0xE0) * 4096 + (b1 - 0x80) * 64 + (b2 - 0x80))%N in
  (0xE0 <= b0 <= 0xEF)%N -> (0x80 <= b1 <= 0xBF)%N -> (0x80 <= b2 <= 0xBF)%N ->
  (0x800 <= c)%N -> is_scalar c = true ->
  utf8_decode (b0 :: b1 :: b2 :: rest) = option_map (cons c) (utf8_decode rest).
Proof.
  intros c H0 H1 H2 Hc Hs. cbn [utf8_decode]. fold c.
  assert (E1 : (b0 <? 0x80)%N = false) by (apply N.ltb_ge; lia).
  assert (E2 : in_range 0xC2 0xDF b0 = false).
  { unfold in_range. bool_to_prop. lia. }
  assert (E3 : in_range 0xE0 0xEF b0 = true) by range_true.
  assert (E4 : is_continuation b1 = true) by range_true.
  assert (E5 : is_continuation b2 = true) by range_true.
  assert (E6 : (0x800 <=? c)%N = true) by (apply N.leb_le; exact Hc).
  assert (E7 : in_range 0xD800 0xDFFF c = false).
  { unfold is_scalar, in_range in *. bool_to_prop. lia. }
  now rewrite E1, E2, E3, E4, E5, E6, E7.
Qed.

Lemma utf8_decode_4 (b0 b1 b2 b3 : N) (rest : bytes) :
  let c := ((b0 - 0xF0) * 262144 + (b1 - 0x80) * 4096 +
            (b2 - 0x80) * 64 + (b3 - 0x80))%N in
  (0xF0 <= b0 <= 0xF4)%N -> (0x80 <= b1 <= 0xBF)%N -> (0x80 <= b2 <= 0xBF)%N ->
  (0x80 <= b3 <= 0xBF)%N -> (0x10000 <= c <= 0x10FFFF)%N ->
  utf8_decode (b0 :: b1 :: b2 :: b3 :: rest) =
  option_map (cons c) (utf8_decode rest).
Proof.
  intros c H0 H1 H2 H3 Hc. cbn [utf8_decode]. fold c.
  assert (E1 : (b0 <? 0x80)%N = false) by (apply N.ltb_ge; lia).
  assert (E2 : in_range 0xC2 0xDF b0 = false).
  { unfold in_range. bool_to_prop. lia. }
  assert (E3 : in_range 0xE0 0xEF b0 = false).
  { unfold in_range. bool_to_prop. lia. }
  assert (E4 : in_range 0xF0 0xF4 b0 = true) by range_true.
  assert (E5 : is_continuation b1 = true) by range_true.
  assert (E6 : is_continuation b2 = true) by range_true.
  assert (E7 : is_continuation b3 = true) by range_true.
  assert (E8 : in_range 0x10000 0x10FFFF c = true) by range_true.
  now rewrite E1, E2, E3, E4, E5, E6, E7, E8.
Qed.

Lemma utf8_decode_encode_char (c : N) (rest : bytes) :
  is_scalar c = true ->
  utf8_decode (encode_char c ++ rest) = option_map (cons c) (utf8_decode rest).
Proof.
  intros Hs. rewrite encode_char_arith.
  assert (Hmax : (c <= 0x10FFFF)%N).
  { unfold is_scalar, in_range in Hs. bool_to_prop. lia. }
  destruct (base64_digits c)
    as [d0 [d1 [d2 [d3 [M0 [M1 [M2 [M3 [Q1 [Q2 [E [B0 [B1 B2]]]]]]]]]]]]].
  destruct (c <? 0x80)%N eqn:C1.
  { apply N.ltb_lt in C1. now apply utf8_decode_1. }
  apply N.ltb_ge in C1.
  destruct (c <? 0x800)%N eqn:C2.
  { apply N.ltb_lt in C2. rewrite M0, Q1. cbn [app].
    rewrite utf8_decode_2 by lia. do 2 f_equal. lia. }
  apply N.ltb_ge in C2.
  destruct (c <? 0x10000)%N eqn:C3.
  { apply N.ltb_lt in C3. rewrite M0, M1, Q2. cbn [app].
    assert (V : ((0xE0 + (d2 + 64 * d3) - 0xE0) * 4096 +
                 (0x80 + d1 - 0x80) * 64 + (0x80 + d0 - 0x80) = c)%N) by lia.
    rewrite utf8_decode_3; cbv zeta; rewrite ?V; try lia; [reflexivity | exact Hs]. }
  apply N.ltb_ge in C3.
  assert (C4 : (c <? 0x200000)%N = true) by (apply N.ltb_lt; lia).
  rewrite C4, M0, M1, M2, M3. cbn [app].
  assert (V : ((0xF0 + d3 - 0xF0) * 262144 + (0x80 + d2 - 0x80) * 4096 +
               (0x80 + d1 - 0x80) * 64 + (0x80 + d0 - 0x80) = c)%N) by lia.
  rewrite utf8_decode_4; cbv zeta; rewrite ?V; try lia. reflexivity.
Qed.

(** Decoding undoes encoding on every string of scalar values. *)
Lemma utf8_decode_encode (s : str) :
  forallb is_scalar s = true -> utf8_decode (encode s) = Some s.
Proof.
  induction s as [|c s IH]; [reflexivity|].
  cbn [forallb]. intros H. apply andb_true_iff in H. destruct H as [Hc Hs].
  change (encode (c :: s)) with (encode_char c ++ encode s).
  rewrite utf8_decode_encode_char by exact Hc. now rewrite IH.
Qed.

(** A text file that holds the UTF-8 encoding of a string is read back as
    that string, whatever the legacy codecs would make of its bytes. *)
Theorem extract_from_txt_utf8 (L : Libraries) (s : str) :
  forallb is_scalar s = true -> extract_from_txt L (encode s) = s.
Proof.
  intros H. unfold extract_from_txt. now rewrite utf8_decode_encode.
Qed.

Lemma base64_unique (c d0 d1 d2 d3 : N) :
  (d0 < 64)%N -> (d1 < 64)%N -> (d2 < 64)%N ->
  (c = d0 + 64 * (d1 + 64 * (d2 + 64 * d3)))%N ->
  (c mod 64 = d0 /\ (c / 64) mod 64 = d1 /\ (c / 64 / 64) mod 64 = d2 /\
   c / 64 / 64 / 64 = d3)%N.
Proof.
  intros B0 B1 B2 E.
  assert (Q1 : (c / 64 = d1 + 64 * (d2 + 64 * d3))%N).
  { symmetry. apply (N.div_unique c 64 _ d0); [exact B0 | lia]. }
  assert (Q2 : (c / 64 / 64 = d2 + 64 * d3)%N).
  { rewrite Q1. symmetry. apply (N.div_unique _ 64 _ d1); [exact B1 | lia]. }
  assert (Q3 : (c / 64 / 64 / 64 = d3)%N).
  { rewrite Q2. symmetry. apply (N.div_unique _ 64 _ d2); [exact B2 | lia]. }
  repeat split.
  - symmetry. apply (N.mod_unique c 64 (d1 + 64 * (d2 + 64 * d3)) d0); [exact B0 | lia].
  - rewrite Q1. symmetry. apply (N.mod_unique _ 64 (d2 + 64 * d3) d1); [exact B1 | lia].
  - rewrite Q2. symmetry. apply (N.mod_unique _ 64 d3 d2); [exact B2 | lia].
  - exact Q3.
Qed.

Lemma option_map_cons_some (c : N) (o : option str) (s : str) :
  option_map (cons c) o = Some s -> exists s', o = Some s' /\ s = c :: s'.
Proof.
  destruct o as [s'|]; simpl; [|discriminate].
  intros E. injection E as <-. now exists s'.
Qed.

(** What the decoder accepts is the encoding of what it returns: a byte
    string has at most one decoding, made of scalar values, and encoding
    that decoding gives the bytes back. *)
Lemma utf8_decode_sound (n : nat) :
  forall content s,
    (List.length content <= n)%nat -> utf8_decode content = Some s ->
    encode s = content /\ forallb is_scalar s = true.
Proof.
  induction n as [|n IH]; intros content s Hlen H.
  { destruct content; [|simpl in Hlen; lia]. injection H as <-. now split. }
  destruct content as [|b0 t0]; [injection H as <-; now split|].
  cbn [utf8_decode] in H.
  destruct (b0 <? 0x80)%N eqn:C1.
  { apply N.ltb_lt in C1.
    apply option_map_cons_some in H. destruct H as [s' [H ->]].
    destruct (IH t0 s' ltac:(simpl in Hlen; lia) H) as [E F].
    change (encode (b0 :: s')) with (encode_char b0 ++ encode s').
    rewrite E, encode_char_arith.
    assert (X : (b0 <? 0x80)%N = true) by now apply N.ltb_lt.
    rewrite X. split; [reflexivity|].
    cbn [forallb]. rewrite F, andb_true_r.
    unfold is_scalar. bool_to_prop. lia. }
  apply N.ltb_ge in C1.
  destruct (in_range 0xC2 0xDF b0) eqn:C2.
  { destruct t0 as [|b1 t1]; [discriminate|].
    destruct (is_continuation b1) eqn:K1; [|discriminate].
    apply option_map_cons_some in H. destruct H as [s' [H ->]].
    destruct (IH t1 s' ltac:(simpl in Hlen; lia) H) as [E F].
    unfold is_continuation, in_range in *. bool_to_prop.
    set (c := ((b0 - 0xC0) * 64 + (b1 - 0x80))%N).
    destruct (base64_unique c (b1 - 0x80) (b0 - 0xC0) 0 0) as [M0 [M1 [M2 M3]]];
      try (unfold c; lia).
    change (encode (c :: s')) with (encode_char c ++ encode s').
    rewrite E, encode_char_arith.
    assert (X1 : (c <? 0x80)%N = false) by (apply N.ltb_ge; unfold c; lia).
    assert (X2 : (c <? 0x800)%N = true) by (apply N.ltb_lt; unfold c; lia).
    rewrite X1, X2, M0.
    assert (Q : (c / 64 = b0 - 0xC0)%N).
    { symmetry. apply (N.div_unique c 64 _ (b1 - 0x80)); unfold c; lia. }
    rewrite Q. split.
    - cbn [app]. f_equal; [lia|]. f_equal. lia.
    - cbn [forallb]. rewrite F, andb_true_r.
      unfold is_scalar. bool_to_prop. unfold c. lia. }
  destruct (in_range 0xE0 0xEF b0) eqn:C3.
  { destruct t0 as [|b1 [|b2 t2]]; try discriminate.
    cbv zeta in H.
    set (c := ((b0 - 0xE0) * 4096 + (b1 - 0x80) * 64 + (b2 - 0x80))%N) in *.
    destruct (is_continuation b1 && is_continuation b2 && (0x800 <=? c)%N &&
              negb (in_range 0xD800 0xDFFF c)) eqn:K; [|discriminate].
    apply option_map_cons_some in H. destruct H as [s' [H ->]].
    destruct (IH t2 s' ltac:(simpl in Hlen; lia) H) as [E F].
    unfold is_continuation, in_range in *. bool_to_prop.
    destruct K as [[[K1 K2] K3] K4].
    destruct (base64_unique c (b2 - 0x80) (b1 - 0x80) (b0 - 0xE0) 0)
      as [M0 [M1 [M2 M3]]]; try (unfold c; lia).
    assert (Q : (c / 64 / 64 = b0 - 0xE0)%N).
    { rewrite <- M2. symmetry. apply N.mod_small.
      apply N.Div0.div_lt_upper_bound. apply N.Div0.div_lt_upper_bound.
      unfold c. lia. }
    change (encode (c :: s')) with (encode_char c ++ encode s').
    rewrite E, encode_char_arith.
    assert (X1 : (c <? 0x80)%N = false) by (apply N.ltb_ge; lia).
    assert (X2 : (c <? 0x800)%N = false) by (apply N.ltb_ge; lia).
    assert (X3 : (c <? 0x10000)%N = true) by (apply N.ltb_lt; unfold c; lia).
    rewrite X1, X2, X3, M0, M1, Q. split.
    - cbn [app]. f_equal; [lia|]. f_equal; [lia|]. f_equal. lia.
    - cbn [forallb]. rewrite F, andb_true_r.
      unfold is_scalar, in_range. bool_to_prop.
      assert (c < 0x10000)%N by (unfold c; lia). lia. }
  destruct (in_range 0xF0 0xF4 b0) eqn:C4; [|discriminate].
  destruct t0 as [|b1 [|b2 [|b3 t3]]]; try discriminate.
  cbv zeta in H.
  set (c := ((b0 - 0xF0) * 262144 + (b1 - 0x80) * 4096 + (b2 - 0x80) * 64 +
             (b3 - 0x80))%N) in *.
  destruct (is_continuation b1 && is_continuation b2 && is_continuation b3 &&
            in_range 0x10000 0x10FFFF c) eqn:K; [|discriminate].
  apply option_map_cons_some in H. destruct H as [s' [H ->]].
  destruct (IH t3 s' ltac:(simpl in Hlen; lia) H) as [E F].
  unfold is_continuation, in_range in *. bool_to_prop.
  destruct K as [[[K1 K2] K3] K4].
  destruct (base64_unique c (b3 - 0x80) (b2 - 0x80) (b1 - 0x80) (b0 - 0xF0))
    as [M0 [M1 [M2 M3]]]; try (unfold c; lia).
  change (encode (c :: s')) with (encode_char c ++ encode s').
  rewrite E, encode_char_arith.
  assert (X1 : (c <? 0x80)%N = false) by (apply N.ltb_ge; lia).
  assert (X2 : (c <? 0x800)%N = false) by (apply N.ltb_ge; lia).
  assert (X3 : (c <? 0x10000)%N = false) by (apply N.ltb_ge; lia).
  assert (X4 : (c <? 0x200000)%N = true) by (apply N.ltb_lt; lia).
  rewrite X1, X2, X3, X4, M0, M1, M2, M3. split.
  - cbn [app]. f_equal; [lia|]. f_equal; [lia|]. f_equal; [lia|]. f_equal. lia.
  - cbn [forallb]. rewrite F, andb_true_r.
    unfold is_scalar, in_range. bool_to_prop. lia.
Qed.

(** When the content of a text file is valid UTF-8, the text returned
    encodes back to exactly that content, and it holds scalar values
    only. *)
Theorem extract_from_txt_lossless (L : Libraries) (content : bytes) (s : str) :
  utf8_decode content = Some s ->
  extract_from_txt L content = s /\ encode s = content /\
  forallb is_scalar s = true.
Proof.
  intros H. split.
  - unfold extract_from_txt. now rewrite H.
  - exact (utf8_decode_sound (List.length content) content s (le_n _) H).
Qed.

Lemma extract_from_txt_utf8_witness :
  extract_from_txt plain_libraries
    (encode (u "caf" ++ [0xE9; 0x20; 0x3042; 0x1F600]%N)) =
  u "caf" ++ [0xE9; 0x20; 0x3042; 0x1F600]%N.
Proof. apply extract_from_txt_utf8. reflexivity. Defined.

Lemma extract_from_txt_lossless_witness :
  extract_from_txt plain_libraries [0x63; 0xC3; 0xA9; 0xE3; 0x81; 0x82]%N =
    [0x63; 0xE9; 0x3042]%N /\
  encode [0x63; 0xE9; 0x3042]%N = [0x63; 0xC3; 0xA9; 0xE3; 0x81; 0x82]%N /\
  forallb is_scalar [0x63; 0xE9; 0x3042]%N = true.
Proof. apply extract_from_txt_lossless. reflexivity. Defined.

(** ** [extract]: dispatch on the extension *)

Lemma extract_adapters_no_value_error (L : Libraries) (content : bytes) :
  is_value_error (extract_from_pdf L content) = false /\
  is_value_error (extract_from_docx L content) = false /\
  is_value_error (extract_from_pptx L content) = false /\
  is_value_error (extract_from_xlsx L content) = false.
Proof.
  unfold extract_from_pdf, extract_from_docx, extract_from_pptx,
    extract_from_xlsx.
  destruct (PDF_AVAILABLE L), (pdf_extract_text L content),
    (DOCX_AVAILABLE L), (DocxDocument L content),
    (PPTX_AVAILABLE L), (Presentation L content),
    (EXCEL_AVAILABLE L), (load_workbook L content); repeat split.
Qed.

(** For an ASCII extension, [extract] raises [ValueError] exactly when the
    extension, in lower case, is none of [.pdf], [.docx], [.pptx], [.ppt],
    [.xlsx], [.xls] and [.txt]; the message then ends in the lowered
    extension, and the content is not looked at. *)
Theorem extract_unsupported_iff (L : Libraries) (content : bytes)
    (file_extension : str) :
  lowers_ascii L -> forallb is_ascii file_extension = true ->
  (is_value_error (extract L content file_extension) =
   negb (existsb (str_eqb (map ascii_lower file_extension))
                 supported_extensions)) /\
  (existsb (str_eqb (map ascii_lower file_extension)) supported_extensions
     = false ->
   extract L content file_extension =
   inl (ValueError (unsupported_prefix ++ map ascii_lower file_extension))).
Proof.
  intros HL Ha. unfold extract. cbv zeta. rewrite (HL _ Ha).
  set (ext := map ascii_lower file_extension).
  destruct (extract_adapters_no_value_error L content) as [H1 [H2 [H3 H4]]].
  unfold supported_extensions. cbn [existsb].
  destruct (str_eqb ext (u ".pdf")); [split; [exact H1 | discriminate]|].
  destruct (str_eqb ext (u ".docx")); [split; [exact H2 | discriminate]|].
  destruct (str_eqb ext (u ".pptx")); [split; [exact H3 | discriminate]|].
  destruct (str_eqb ext (u ".ppt")); [split; [exact H3 | discriminate]|].
  destruct (str_eqb ext (u ".xlsx")); [split; [exact H4 | discriminate]|].
  destruct (str_eqb ext (u ".xls")); [split; [exact H4 | discriminate]|].
  destruct (str_eqb ext (u ".txt")); [split; [reflexivity | discriminate]|].
  split; reflexivity.
Qed.

Lemma plain_libraries_lowers_ascii : lowers_ascii plain_libraries.
Proof. intros s _. reflexivity. Qed.

Lemma extract_unsupported_iff_witness :
  extract plain_libraries (encode (u "text")) (u ".DOC") =
    inl (ValueError (unsupported_prefix ++ u ".doc")) /\
  is_value_error (extract plain_libraries (encode (u "text")) (u ".Pdf")) = false.
Proof.
  split.
  - apply (proj2 (extract_unsupported_iff plain_libraries (encode (u "text"))
                    (u ".DOC") plain_libraries_lowers_ascii eq_refl)).
    reflexivity.
  - rewrite (proj1 (extract_unsupported_iff plain_libraries (encode (u "text"))
                      (u ".Pdf") plain_libraries_lowers_ascii eq_refl)).
    reflexivity.
Defined.

Lemma str_eqb_eq (a b : str) : str_eqb a b = true <-> a = b.
Proof.
  revert b. induction a as [|x a IH]; intros [|y b]; simpl.
  - split; reflexivity.
  - split; discriminate.
  - split; discriminate.
  - rewrite andb_true_iff, N.eqb_eq, IH. split.
    + intros [-> ->]. reflexivity.
    + intros E. injection E as -> ->. now split.
Qed.

(** A [.txt] extension, in any letter case, returns the UTF-8 text of the
    content without calling a document library. *)
Theorem extract_txt_utf8 (L : Libraries) (s file_extension : str) :
  lowers_ascii L -> forallb is_ascii file_extension = true ->
  map ascii_lower file_extension = u ".txt" ->
  forallb is_scalar s = true ->
  extract L (encode s) file_extension = inr s.
Proof.
  intros HL Ha He Hs. unfold extract. cbv zeta. rewrite (HL _ Ha), He.
  change (str_eqb (u ".txt") (u ".pdf")) with false.
  change (str_eqb (u ".txt") (u ".docx")) with false.
  change (existsb (str_eqb (u ".txt")) [u ".pptx"; u ".ppt"]) with false.
  change (existsb (str_eqb (u ".txt")) [u ".xlsx"; u ".xls"]) with false.
  change (str_eqb (u ".txt") (u ".txt")) with true. cbv iota.
  unfold extract_from_txt. now rewrite utf8_decode_encode.
Qed.

Lemma extract_txt_utf8_witness :
  extract plain_libraries (encode (u "caf" ++ [0xE9; 0x3042]%N)) (u ".TxT") =
  inr (u "caf" ++ [0xE9; 0x3042]%N).
Proof.
  apply extract_txt_utf8; try reflexivity.
  apply plain_libraries_lowers_ascii.
Defined.

(** ** Word documents: from the extracted text back to the paragraphs *)

Lemma blank_tail_stops (q rest : str) (pos : nat) (last : option nat) :
  no_newline q = true -> forallb isspace q = false ->
  blank_tail (q ++ rest) pos last = last.
Proof.
  revert pos. induction q as [|c q IH]; intros pos Hn Hb; [discriminate|].
  cbn [no_newline forallb] in Hn, Hb. apply andb_true_iff in Hn.
  destruct Hn as [Hc Hn]. apply negb_true_iff in Hc.
  cbn [app blank_tail]. destruct (isspace c); [|reflexivity].
  rewrite Hc. apply IH; [exact Hn | exact Hb].
Qed.

Lemma scan_paragraph (p rest acc : str) :
  no_newline p = true ->
  re_split_blank_lines (p ++ rest) 0 acc =
  re_split_blank_lines rest 0 (rev p ++ acc).
Proof.
  revert acc. induction p as [|c p IH]; intros acc Hn; [reflexivity|].
  cbn [no_newline forallb] in Hn. apply andb_true_iff in Hn.
  destruct Hn as [Hc Hn]. apply negb_true_iff in Hc.
  cbn [app re_split_blank_lines]. rewrite Hc.
  rewrite IH by exact Hn. cbn [rev]. now rewrite <- app_assoc.
Qed.

Lemma scan_blank_line (q rest acc : str) :
  no_newline q = true -> forallb isspace q = false ->
  re_split_blank_lines (blank_line ++ q ++ rest) 0 acc =
  rev acc :: re_split_blank_lines (q ++ rest) 0 [].
Proof.
  intros Hn Hb. unfold blank_line. cbn [app re_split_blank_lines].
  rewrite N.eqb_refl. cbn [blank_tail].
  change (isspace newline) with true. cbv iota. rewrite N.eqb_refl.
  rewrite blank_tail_stops by assumption. reflexivity.
Qed.

Lemma join_head (sep q : str) (ps : list str) :
  exists rest, join sep (q :: ps) = q ++ rest.
Proof.
  destruct ps as [|p ps]; [exists []; now rewrite app_nil_r|].
  now exists (sep ++ join sep (p :: ps)).
Qed.

Lemma not_blank (s : str) : nonempty (strip s) = true -> forallb isspace s = false.
Proof.
  intros H. destruct (forallb isspace s) eqn:E; [|reflexivity].
  rewrite (strip_whitespace s E) in H. discriminate.
Qed.

(** Splitting the blank-line join of paragraphs that hold no newline gives
    the paragraphs back. *)
Lemma re_split_join (p : str) (ps : list str) :
  no_newline p = true ->
  Forall (fun q => no_newline q = true /\ forallb isspace q = false) ps ->
  re_split_blank_lines (join blank_line (p :: ps)) 0 [] = p :: ps.
Proof.
  intros Hp Hps. revert p Hp.
  induction Hps as [|q ps [Hq Hb] _ IH]; intros p Hp.
  - simpl join. rewrite <- (app_nil_r p) at 1.
    rewrite scan_paragraph by exact Hp. simpl. now rewrite app_nil_r, rev_involutive.
  - rewrite join_cons by discriminate.
    rewrite scan_paragraph by exact Hp.
    destruct (join_head blank_line q ps) as [rest E].
    rewrite E, scan_blank_line by assumption.
    rewrite <- E, IH by exact Hq.
    now rewrite app_nil_r, rev_involutive.
Qed.

Lemma filter_filter {A} (f : A -> bool) (l : list A) :
  filter f (filter f l) = filter f l.
Proof.
  apply filter_all. apply forallb_forall. intros x Hx.
  apply filter_In in Hx. now destruct Hx.
Qed.

(** When no paragraph of a Word document holds a newline, the paragraphs
    the chunker finds in the extracted text are the non-blank paragraphs of
    the document, each trimmed, in order. *)
Theorem docx_paragraphs_recovered (L : Libraries) (content : bytes)
    (texts : list str) :
  DOCX_AVAILABLE L = true -> DocxDocument L content = inr texts ->
  Forall (fun t => no_newline t = true) texts ->
  exists extracted,
    extract_from_docx L content = inr extracted /\
    _split_into_paragraphs extracted =
    map strip (filter (fun t => nonempty (strip t)) texts).
Proof.
  intros Ha Hd Hn. exists (docx_text texts). split.
  { unfold extract_from_docx. now rewrite Ha, Hd. }
  unfold docx_text. cbv zeta.
  set (ps := filter (fun t => nonempty (strip t)) texts).
  assert (Hps : Forall (fun q => no_newline q = true /\
                                 forallb isspace q = false) ps).
  { apply Forall_forall. intros q Hq. apply filter_In in Hq.
    destruct Hq as [Hin Hq]. split.
    - exact (proj1 (Forall_forall _ _) Hn q Hin).
    - now apply not_blank. }
  unfold _split_into_paragraphs. cbv zeta.
  destruct ps as [|p ps'] eqn:E; [reflexivity|].
  inversion Hps as [|? ? [Hp _] Hrest]; subst.
  rewrite re_split_join by assumption.
  rewrite <- E. unfold ps. now rewrite filter_filter.
Qed.

Lemma docx_paragraphs_recovered_witness :
  exists extracted,
    extract_from_docx office_libraries [] = inr extracted /\
    _split_into_paragraphs extracted = [u "Title"; u "First paragraph."].
Proof.
  apply (docx_paragraphs_recovered office_libraries []
           [u "Title"; u "   "; u " First paragraph. "; []]).
  - reflexivity.
  - reflexivity.
  - repeat constructor.
Defined.

(** ** Workbooks and presentations: what is left out *)

Lemma strip_with_empty_iff (p : N -> bool) (s : str) :
  rstrip_with p (lstrip_with p s) = [] <-> forallb p s = true.
Proof.
  unfold lstrip_with. split.
  - intros E.
    destruct (dropwhile_suffix p s) as [a [Ea Fa]].
    destruct (rstrip_with_prefix p (dropwhile p s)) as [b [Eb Fb]].
    rewrite E in Eb. simpl in Eb. rewrite Ea, Eb.
    now apply forallb_app_true.
  - intros H. now rewrite dropwhile_all.
Qed.

Lemma forallb_join (p : N -> bool) (sep : str) (parts : list str) :
  forallb p sep = true ->
  forallb p (join sep parts) = forallb (forallb p) parts.
Proof.
  intros Hsep. induction parts as [|x parts IH]; [reflexivity|].
  destruct parts as [|y parts].
  - simpl. now rewrite andb_true_r.
  - rewrite join_cons by discriminate.
    rewrite !forallb_app, Hsep, IH. reflexivity.
Qed.

(** A row is kept exactly when one of its cells holds a character other
    than a space or a bar. *)
Lemma row_kept_iff (L : Libraries) (row : list (option (cell L))) :
  nonempty (strip_chars (u " |") (row_text L row)) =
  negb (forallb (blank_cell L) row).
Proof.
  assert (E : forallb (fun x => char_in x (u " |")) (row_text L row) =
              forallb (blank_cell L) row).
  { unfold row_text. rewrite forallb_join by reflexivity.
    induction row as [|c row IH]; [reflexivity|].
    cbn [map forallb]. rewrite IH. now destruct c. }
  unfold strip_chars.
  pose proof (strip_with_empty_iff (fun x => char_in x (u " |")) (row_text L row)) as I.
  rewrite E in I.
  destruct (forallb (blank_cell L) row).
  - rewrite (proj2 I eq_refl). reflexivity.
  - destruct (rstrip_with _ _); [|reflexivity].
    now pose proof (proj1 I eq_refl).
Qed.

Lemma join_nonempty_head (sep p : str) (ps : list str) :
  p <> [] -> join sep (p :: ps) <> [].
Proof.
  intros Hp. destruct (join_head sep p ps) as [rest ->].
  destruct p; [congruence | discriminate].
Qed.

Lemma join_nil_iff (sep : str) (parts : list str) :
  Forall (fun p => p <> []) parts -> (join sep parts = [] <-> parts = []).
Proof.
  intros H. split; [|now intros ->].
  destruct H as [|p ps Hp _]; [reflexivity|].
  intros E. now apply join_nonempty_head in E.
Qed.

Lemma text_parts_nonempty (L : Libraries)
    (sheets : list (str * list (list (option (cell L))))) :
  Forall (fun p => p <> []) (text_parts L sheets).
Proof.
  unfold text_parts. apply Forall_forall. intros p Hp.
  apply in_flat_map in Hp. destruct Hp as [sheet [_ Hp]]. cbv zeta in Hp.
  destruct (len_list _ >? 1)%Z; [|destruct Hp].
  destruct Hp as [<-|[]]. unfold sheet_lines.
  apply join_nonempty_head. unfold sheet_header. discriminate.
Qed.

Lemma blank_rows_filtered (L : Libraries) (rows : list (list (option (cell L)))) :
  (forall row, In row rows -> forallb (blank_cell L) row = true) ->
  filter (fun t => nonempty (strip_chars (u " |") t)) (map (row_text L) rows) = [].
Proof.
  induction rows as [|row rows IH]; intros H; [reflexivity|].
  simpl. rewrite row_kept_iff, (H row (or_introl eq_refl)). simpl.
  apply IH. intros r Hr. apply H. now right.
Qed.

(** The text extracted from a workbook is empty exactly when no row of any
    sheet holds a cell with a character other than a space or a bar: a
    sheet without such a row is left out together with its header. *)
Theorem xlsx_text_empty_iff (L : Libraries)
    (sheets : list (str * list (list (option (cell L))))) :
  xlsx_text L sheets = [] <->
  (forall sheet row, In sheet sheets -> In row (snd sheet) ->
     forallb (blank_cell L) row = true).
Proof.
  unfold xlsx_text.
  rewrite (join_nil_iff blank_line _ (text_parts_nonempty L sheets)).
  unfold text_parts. rewrite flat_map_nil_iff.
  split.
  - intros H sheet row Hs Hr. specialize (H sheet Hs). cbv zeta in H.
    destruct (forallb (blank_cell L) row) eqn:B; [reflexivity|]. exfalso.
    assert (K : In (row_text L row)
                  (filter (fun t => nonempty (strip_chars (u " |") t))
                          (map (row_text L) (snd sheet)))).
    { apply filter_In. split; [now apply in_map|].
      now rewrite row_kept_iff, B. }
    unfold sheet_lines, len_list in H.
    destruct (filter _ (map (row_text L) (snd sheet))) as [|x xs]; [destruct K|].
    simpl List.length in H.
    destruct (Z.of_nat (S (S (List.length xs))) >? 1)%Z eqn:G; [discriminate|].
    rewrite Z.gtb_ltb in G. apply Z.ltb_ge in G. lia.
  - intros H sheet Hs. cbv zeta.
    assert (F : filter (fun t => nonempty (strip_chars (u " |") t))
                  (map (row_text L) (snd sheet)) = []).
    { apply blank_rows_filtered. intros row Hr. now apply (H sheet). }
    unfold sheet_lines. rewrite F. reflexivity.
Qed.

(** Slides are numbered from 1, and every slide, with or without text,
    gives one block of the extracted text, which starts with the header of
    that slide. *)
Theorem pptx_slide_blocks (slides : list (list (option str))) (k : nat)
    (shapes : list (option str)) :
  nth_error slides k = Some shapes ->
  List.length (text_runs 1 slides) = List.length slides /\
  exists rest,
    nth_error (text_runs 1 slides) k =
    Some (slide_header (Z.of_nat k + 1) ++ rest).
Proof.
  intros H. split.
  { clear H. generalize 1%Z.
    induction slides as [|s slides IH]; intros n; simpl;
      [reflexivity | now rewrite IH]. }
  assert (G : forall n, exists rest,
             nth_error (text_runs n slides) k =
             Some (slide_header (Z.of_nat k + n) ++ rest)).
  { revert k H. induction slides as [|s slides IH]; intros k H n.
    - destruct k; discriminate.
    - destruct k as [|k]; simpl in H.
      + injection H as ->.
        change (text_runs n (shapes :: slides))
          with (join [newline] (slide_lines n shapes) :: text_runs (n + 1) slides).
        cbn [nth_error]. unfold slide_lines.
        match goal with
        | |- context [join [newline] (slide_header n :: ?l)] =>
            destruct (join_head [newline] (slide_header n) l) as [rest E]
        end.
        exists rest. rewrite E. reflexivity.
      + destruct (IH k H (n + 1)%Z) as [rest E].
        exists rest.
        change (text_runs n (s :: slides))
          with (join [newline] (slide_lines n s) :: text_runs (n + 1) slides).
        cbn [nth_error]. rewrite E. do 3 f_equal. lia. }
  exact (G 1%Z).
Qed.

Lemma pptx_slide_blocks_witness :
  List.length (text_runs 1 [[Some (u " Agenda "); None]; []]) = 2%nat /\
  exists rest,
    nth_error (text_runs 1 [[Some (u " Agenda "); None]; []]) 1 =
    Some (slide_header 2 ++ rest).
Proof.
  apply (pptx_slide_blocks [[Some (u " Agenda "); None]; []] 1 []).
  reflexivity.
Defined.

(** ** The ACL extractor: permissions that arrive in several lists *)

Lemma collect_id_extend (who : value) (key : str) (ids : list value) :
  collect_id who key ids =
  match collect_id who key [] with
  | inr d => inr (ids ++ d)
  | inl e => inl e
  end.
Proof.
  unfold collect_id.
  destruct (py_get who key VNone) as [e|x]; cbn [bind]; [reflexivity|].
  destruct (truthy x); [|unfold ret; now rewrite app_nil_r].
  destruct (py_contains (u "id") x) as [e|[|]]; cbn [bind]; [reflexivity | |].
  - destruct (py_getitem x (u "id")); cbn [bind]; reflexivity.
  - unfold ret. now rewrite app_nil_r.
Qed.

Lemma collect_extend (acc : acl) (who : value) :
  collect acc who = extend acc (collect ([], []) who).
Proof.
  destruct acc as [us gs]. unfold collect.
  rewrite (collect_id_extend who (u "user") us).
  rewrite (collect_id_extend who (u "group") gs).
  destruct (collect_id who (u "user") []) as [e|du]; cbn [bind extend];
    [reflexivity|].
  destruct (collect_id who (u "group") []) as [e|dg]; cbn [bind extend];
    reflexivity.
Qed.

Lemma extend_extend (acc d : acl) (r : result acl) :
  extend acc (extend d r) =
  extend (fst acc ++ fst d, snd acc ++ snd d) r.
Proof.
  destruct r as [e|[x y]]; simpl; [reflexivity|]. now rewrite !app_assoc.
Qed.

Lemma extend_nil (r : result acl) : extend ([], []) r = r.
Proof. destruct r as [e|[x y]]; reflexivity. Qed.

Lemma foldM_extend {A} (f : acl -> A -> result acl) :
  (forall acc a, f acc a = extend acc (f ([], []) a)) ->
  forall l acc, foldM f l acc = extend acc (foldM f l ([], [])).
Proof.
  intros Hf. induction l as [|a l IH]; intros acc.
  - destruct acc. simpl. now rewrite !app_nil_r.
  - cbn [foldM]. rewrite (Hf acc a).
    destruct (f ([], []) a) as [e|d]; cbn [bind extend]; [reflexivity|].
    rewrite IH, (IH d), extend_extend. reflexivity.
Qed.

Lemma bind_extend (acc : acl) (r : result acl) (k : acl -> result acl) :
  (forall d, k (fst acc ++ fst d, snd acc ++ snd d) = extend acc (k d)) ->
  bind (extend acc r) k = extend acc (bind r k).
Proof. intros H. destruct r as [e|d]; simpl; [reflexivity | apply H]. Qed.

Lemma extract_perm_extend (acc : acl) (perm : value) :
  extract_perm acc perm = extend acc (extract_perm ([], []) perm).
Proof.
  unfold extract_perm.
  destruct (granted_of perm) as [e|granted]; cbn [bind]; [reflexivity|].
  assert (E : (if truthy granted then collect acc granted else ret acc) =
              extend acc (if truthy granted then collect ([], []) granted
                          else ret ([], []))).
  { destruct (truthy granted); [apply collect_extend|].
    destruct acc. simpl. now rewrite !app_nil_r. }
  rewrite E. apply bind_extend. intros d.
  destruct (identities_of perm) as [e|ids]; cbn [bind]; [reflexivity|].
  destruct (py_iter ids) as [e|items]; cbn [bind]; [reflexivity|].
  rewrite (foldM_extend collect collect_extend items (_, _)).
  rewrite (foldM_extend collect collect_extend items d).
  now rewrite extend_extend.
Qed.

Lemma set_member_str (xs : list value) (i : str) :
  forallb hashable xs = true ->
  (In (VStr i) (set_insert_all xs []) <-> In (VStr i) xs).
Proof.
  intros H. split.
  - intros Hin. apply set_insert_all_sound in Hin. destruct Hin as [Hin|[]].
    exact Hin.
  - intros Hin.
    pose proof (set_insert_all_complete xs [] (VStr i) H Hin) as E.
    apply existsb_exists in E. destruct E as [y [Hy Ey]].
    destruct y; simpl in Ey; try discriminate.
    apply str_eqb_eq in Ey. now subst.
Qed.

Lemma extract_acl_inv (permissions : value) (users groups : list value) :
  extract_acl_from_permissions permissions = inr (users, groups) ->
  exists user_ids group_ids,
    collected_ids permissions = inr (user_ids, group_ids) /\
    forallb hashable user_ids = true /\ forallb hashable group_ids = true /\
    users = set_insert_all user_ids [] /\ groups = set_insert_all group_ids [].
Proof.
  unfold extract_acl_from_permissions.
  destruct (collected_ids permissions) as [e|[user_ids group_ids]];
    [discriminate|]. cbn [bind].
  destruct (py_list_set user_ids) as [e|us] eqn:Eu; [discriminate|]. cbn [bind].
  destruct (py_list_set group_ids) as [e|gs] eqn:Eg; [discriminate|]. cbn [bind].
  intros E. injection E as <- <-.
  apply py_list_set_inv in Eu, Eg. destruct Eu as [Hu ->], Eg as [Hg ->].
  now exists user_ids, group_ids.
Qed.

(** Extracting from two permission lists put end to end gives the union of
    what each list gives: when the extractor succeeds on both, it succeeds
    on their concatenation, and a string is a user id (a group id) of the
    result exactly when it is one for the first list or for the second. *)
Theorem extract_acl_concat (perms1 perms2 : list value)
    (users1 groups1 users2 groups2 : list value) :
  extract_acl_from_permissions (VList perms1) = inr (users1, groups1) ->
  extract_acl_from_permissions (VList perms2) = inr (users2, groups2) ->
  exists users groups,
    extract_acl_from_permissions (VList (perms1 ++ perms2)) =
      inr (users, groups) /\
    NoDup users /\ NoDup groups /\
    (forall i, In (VStr i) users <->
               In (VStr i) users1 \/ In (VStr i) users2) /\
    (forall i, In (VStr i) groups <->
               In (VStr i) groups1 \/ In (VStr i) groups2).
Proof.
  intros H1 H2.
  apply extract_acl_inv in H1, H2.
  destruct H1 as [cu1 [cg1 [C1 [Hu1 [Hg1 [-> ->]]]]]].
  destruct H2 as [cu2 [cg2 [C2 [Hu2 [Hg2 [-> ->]]]]]].
  unfold collected_ids in C1, C2. cbn [py_iter bind ret] in C1, C2.
  assert (C : collected_ids (VList (perms1 ++ perms2)) =
              inr (cu1 ++ cu2, cg1 ++ cg2)).
  { unfold collected_ids. cbn [py_iter bind ret].
    rewrite foldM_app. unfold ret in C1. rewrite C1. cbn [bind].
    rewrite (foldM_extend extract_perm extract_perm_extend perms2 (cu1, cg1)).
    unfold ret in C2. rewrite C2. reflexivity. }
  assert (Hu : forallb hashable (cu1 ++ cu2) = true)
    by now apply forallb_app_true.
  assert (Hg : forallb hashable (cg1 ++ cg2) = true)
    by now apply forallb_app_true.
  exists (set_insert_all (cu1 ++ cu2) []), (set_insert_all (cg1 ++ cg2) []).
  split.
  { unfold extract_acl_from_permissions. rewrite C. cbn [bind].
    rewrite (py_list_set_ok _ Hu). cbn [bind].
    rewrite (py_list_set_ok _ Hg). reflexivity. }
  split; [apply set_insert_all_nodup; [exact Hu | constructor]|].
  split; [apply set_insert_all_nodup; [exact Hg | constructor]|].
  split; intros i; rewrite !set_member_str by assumption; apply in_app_iff.
Qed.

Lemma extract_acl_concat_witness :
  exists users groups,
    extract_acl_from_permissions
      (VList ([grants_user "grantedToV2" "u1"; grants_user "grantedTo" "u2"] ++
              [grants_user "grantedTo" "u1"; grants_user "grantedToV2" "u3"])) =
      inr (users, groups) /\
    NoDup users /\ NoDup groups /\
    (forall i, In (VStr i) users <->
               In (VStr i) [VStr (u "u1"); VStr (u "u2")] \/
               In (VStr i) [VStr (u "u1"); VStr (u "u3")]) /\
    (forall i, In (VStr i) groups <-> In (VStr i) [] \/ In (VStr i) []).
Proof.
  apply extract_acl_concat; reflexivity.
Defined.

(** ** The chunker: sentences and metadata *)

Lemma re_split_sentence_ends_chars (f : N -> bool) (s : str) :
  forall skip piece,
    forallb f piece = true ->
    (forall c, In c s -> is_sentence_end c = false -> f c = true) ->
    Forall (fun q => forallb f q = true) (re_split_sentence_ends s skip piece).
Proof.
  induction s as [|c s IH]; intros skip piece Hp Hs; simpl.
  - constructor; [now apply forallb_rev | constructor].
  - assert (Hs' : forall x, In x s -> is_sentence_end x = false -> f x = true).
    { intros x Hx. apply Hs. now right. }
    destruct skip as [|k]; [|now apply IH].
    destruct (is_sentence_end c) eqn:E.
    + constructor; [now apply forallb_rev | now apply IH].
    + apply IH; [|exact Hs']. simpl. rewrite Hp, andb_true_r.
      apply Hs; [now left | exact E].
Qed.

Lemma strip_forallb (f : N -> bool) (s : str) :
  forallb f s = true -> forallb f (strip s) = true.
Proof.
  intros H. unfold strip, lstrip_with.
  destruct (dropwhile_suffix isspace s) as [a [Ea _]].
  destruct (rstrip_with_prefix isspace (dropwhile isspace s)) as [b [Eb _]].
  rewrite Ea, Eb, !forallb_app in H.
  apply andb_true_iff in H. destruct H as [_ H].
  apply andb_true_iff in H. now destruct H.
Qed.

(** Every sentence the splitter returns is a trimmed, non-empty body that
    holds none of the four sentence-end characters, followed by the
    ideographic full stop: the punctuation that ended the sentence in the
    input is not kept. *)
Theorem sentences_shape (input : str) :
  Forall (fun sentence =>
            exists body,
              sentence = body ++ [ideographic_full_stop] /\
              trimmed body /\
              forallb (fun c => negb (is_sentence_end c)) body = true)
         (_split_into_sentences input).
Proof.
  unfold _split_into_sentences. cbv zeta.
  apply Forall_forall. intros sentence Hs.
  apply in_map_iff in Hs. destruct Hs as [q [<- Hq]].
  apply filter_In in Hq. destruct Hq as [Hin Hne].
  exists (strip q). split; [reflexivity|]. split.
  - apply strip_trimmed. destruct (strip q); [discriminate | discriminate].
  - apply strip_forallb.
    pose proof (re_split_sentence_ends_chars
                  (fun c => negb (is_sentence_end c)) input 0 [] eq_refl) as H.
    rewrite Forall_forall in H. apply H; [|exact Hin].
    intros c _ E. now rewrite E.
Qed.

Lemma add_unit_metadata (self : TextChunker) (md : option dict)
    (st : loop_state) (un : unit_) :
  Forall (fun c => metadata c = stored_metadata md) (st_chunks st) ->
  Forall (fun c => metadata c = stored_metadata md)
         (st_chunks (add_unit self md st un)).
Proof.
  destruct st as [chunks cur start idx], un as [unit sep]. simpl. intros H.
  destruct (len cur + len unit <=? chunk_size self)%Z; [exact H|].
  destruct (nonempty cur); [|exact H]. simpl.
  apply Forall_app. split; [exact H | constructor; [reflexivity | constructor]].
Qed.

(** Every chunk carries the metadata given to [split_text], or the empty
    mapping when none was given. *)
Theorem split_text_metadata (self : TextChunker) (input : str)
    (md : option dict) :
  Forall (fun c => metadata c = stored_metadata md) (split_text self input md).
Proof.
  unfold split_text.
  destruct (negb (nonempty input) || negb (nonempty (strip input)));
    [constructor|].
  rewrite fold_paragraphs_units.
  assert (H : Forall (fun c => metadata c = stored_metadata md)
                (st_chunks (fold_left (add_unit self md)
                              (flat_map (units_of_paragraph self)
                                 (_split_into_paragraphs input))
                              initial_state))).
  { generalize (flat_map (units_of_paragraph self) (_split_into_paragraphs input)).
    intros us.
    assert (G : forall st,
               Forall (fun c => metadata c = stored_metadata md) (st_chunks st) ->
               Forall (fun c => metadata c = stored_metadata md)
                      (st_chunks (fold_left (add_unit self md) us st))).
    { induction us as [|un us IH]; intros st Hst; [exact Hst|].
      simpl. apply IH. now apply add_unit_metadata. }
    apply G. constructor. }
  destruct (fold_left (add_unit self md) _ initial_state)
    as [chunks cur start idx].
  simpl in H. unfold finish. destruct (nonempty (strip cur)); [|exact H].
  apply Forall_app. split; [exact H | constructor; [reflexivity | constructor]].
Qed.
